(** * Earthquake monitor: the canvas map component and its helpers

    A shallow embedding of [src/services/earthquakeService.ts]
    (the marker helpers) and of the canvas version of
    [src/components/EarthquakeMap.tsx] (viewport state, wheel zoom,
    centring on search coordinates, drag to pan, click hit-testing and the
    marker loop of the render pass).

    Numbers.  A JavaScript [number] is idealised as a real number: the
    properties below are the exact-arithmetic readings of laws the
    specification states "within tolerance".  The one place where the
    component can meet a value that is not a number is the destructuring
    of [quake.geometry.coordinates]; there an absent entry is [None] and
    stands for [undefined], which arithmetic turns into [NaN]. *)

From Stdlib Require Import NArith ZArith Reals Lra List String Bool.
Import ListNotations.

Open Scope R_scope.

(** ** Points and coordinates *)

(** The [{ x, y }] objects held in [pan] and [dragStart]. *)
Module Pt.
Record t : Type := mk { x : R; y : R }.
End Pt.

(** The [{ lat, lng }] objects of [searchCoordinates] and [userLocation]. *)
Record LatLng : Type := mkLatLng { lat : R; lng : R }.

(** ** earthquakeService.ts: helpers for map visualisation *)

Definition getMagnitudeColor (magnitude : R) : string :=
  if Rge_dec magnitude 7 then "#dc2626"%string       (* red *)
  else if Rge_dec magnitude 6 then "#ea580c"%string  (* orange *)
  else if Rge_dec magnitude 5 then "#f59e0b"%string  (* amber *)
  else if Rge_dec magnitude 4 then "#eab308"%string  (* yellow *)
  else if Rge_dec magnitude 3 then "#84cc16"%string  (* lime *)
  else "#22c55e"%string.                             (* green *)

Definition getMagnitudeSize (magnitude : R) : R :=
  if Rge_dec magnitude 7 then 24
  else if Rge_dec magnitude 6 then 20
  else if Rge_dec magnitude 5 then 16
  else if Rge_dec magnitude 4 then 12
  else if Rge_dec magnitude 3 then 10
  else 8.

(** Position of a colour on the ramp green, lime, yellow, amber, orange,
    red; any other string is off the ramp. *)
Definition colorRank (c : string) : option nat :=
  if String.eqb c "#22c55e" then Some 0%nat
  else if String.eqb c "#84cc16" then Some 1%nat
  else if String.eqb c "#eab308" then Some 2%nat
  else if String.eqb c "#f59e0b" then Some 3%nat
  else if String.eqb c "#ea580c" then Some 4%nat
  else if String.eqb c "#dc2626" then Some 5%nat
  else None.

Ltac magnitude_cases :=
  repeat match goal with
         | |- context [Rge_dec ?a ?b] => destruct (Rge_dec a b)
         | H : context [Rge_dec ?a ?b] |- _ => destruct (Rge_dec a b)
         end.

(** ** types/earthquake: the event record *)

(** Modelled from the spec: the declaration of the [Earthquake] type
    (types/earthquake) is not among the sources.  The record keeps the
    fields the map component reads: [id], [properties.mag],
    [properties.place] and [geometry.coordinates].  The coordinates come
    from deserialised JSON, so the property may be absent ([None]: the
    value is [undefined] or [null] and cannot be destructured) and an array
    may be shorter than the two entries [[lng, lat]] the component reads. *)
Module Quake.
Record t : Type := mk {
  id : string;
  mag : R;
  place : string;
  coordinates : option (list R)
}.
End Quake.

(** How a handler or a pass ends: normally with a value, or by the
    [TypeError] JavaScript raises when it destructures a value that is not
    iterable. *)
Inductive completion (A : Type) : Type :=
| Normal (a : A)
| TypeError.
Arguments Normal {A} a.
Arguments TypeError {A}.

(** ** EarthquakeMap.tsx: the canvas and the component state *)

(** What the component reads from [canvasRef.current]: the canvas size and
    the origin of [getBoundingClientRect()]. *)
Record Canvas : Type := mkCanvas {
  width : R;
  height : R;
  rectLeft : R;
  rectTop : R
}.

(** The four [useState] cells. *)
Record MapState : Type := mkMapState {
  zoom : R;
  pan : Pt.t;
  isDragging : bool;
  dragStart : Pt.t
}.

Definition initialState : MapState :=
  {| zoom := 1; pan := Pt.mk 0 0; isDragging := false; dragStart := Pt.mk 0 0 |}.

Definition setZoom (st : MapState) (z : R) : MapState :=
  {| zoom := z; pan := pan st; isDragging := isDragging st; dragStart := dragStart st |}.

Definition setPan (st : MapState) (p : Pt.t) : MapState :=
  {| zoom := zoom st; pan := p; isDragging := isDragging st; dragStart := dragStart st |}.

Definition setIsDragging (st : MapState) (b : bool) : MapState :=
  {| zoom := zoom st; pan := pan st; isDragging := b; dragStart := dragStart st |}.

Definition setDragStart (st : MapState) (p : Pt.t) : MapState :=
  {| zoom := zoom st; pan := pan st; isDragging := isDragging st; dragStart := p |}.

(** ** Projection and viewport transform, as the component inlines them *)

(** [((lng + 180) / 360) * canvas.width] and
    [((90 - lat) / 180) * canvas.height]. *)
Definition projectX (w lng : R) : R := ((lng + 180) / 360) * w.
Definition projectY (h lat : R) : R := ((90 - lat) / 180) * h.

Definition project (w h : R) (g : LatLng) : Pt.t :=
  Pt.mk (projectX w (lng g)) (projectY h (lat g)).

(** [drawMap]: [ctx.translate(pan.x, pan.y); ctx.scale(zoom, zoom)] sends
    the plane point [p] to the device point [p * zoom + pan]. *)
Definition toDevice (st : MapState) (p : Pt.t) : Pt.t :=
  Pt.mk (Pt.x p * zoom st + Pt.x (pan st)) (Pt.y p * zoom st + Pt.y (pan st)).

(** [handleClick]: a device point (client position minus the canvas
    origin) is taken back to the plane by subtracting [pan] and dividing by
    [zoom]. *)
Definition toPlane (st : MapState) (d : Pt.t) : Pt.t :=
  Pt.mk ((Pt.x d - Pt.x (pan st)) / zoom st) ((Pt.y d - Pt.y (pan st)) / zoom st).

(** ** Wheel zoom *)

Definition handleWheel (st : MapState) (deltaY : R) : MapState :=
  let delta := if Rgt_dec deltaY 0 then 0.9 else 1.1 in
  setZoom st (Rmax 0.5 (Rmin 5 (zoom st * delta))).

(** ** Centring on searched coordinates *)

(** The effect that runs when the [searchCoordinates] prop changes. *)
Definition searchCoordinatesEffect
    (canvasRef : option Canvas) (searchCoordinates : option LatLng)
    (st : MapState) : MapState :=
  match searchCoordinates with
  | None => st
  | Some sc =>
      match canvasRef with
      | None => st
      | Some canvas =>
          let centerX := width canvas / 2 in
          let centerY := height canvas / 2 in
          let x := ((lng sc + 180) / 360) * width canvas in
          let y := ((90 - lat sc) / 180) * height canvas in
          setZoom (setPan st (Pt.mk (centerX - x * 2) (centerY - y * 2))) 2
      end
  end.

(** ** Drag to pan *)

Definition handleMouseDown (st : MapState) (clientX clientY : R) : MapState :=
  setDragStart (setIsDragging st true)
    (Pt.mk (clientX - Pt.x (pan st)) (clientY - Pt.y (pan st))).

Definition handleMouseMove (st : MapState) (clientX clientY : R) : MapState :=
  if isDragging st
  then setPan st (Pt.mk (clientX - Pt.x (dragStart st)) (clientY - Pt.y (dragStart st)))
  else st.

Definition handleMouseUp (st : MapState) : MapState :=
  setIsDragging st false.

(** ** Click hit-testing *)

(** [const [lng, lat] = quake.geometry.coordinates]: entries 0 and 1 of the
    array, [None] for an entry that is not there. *)
Definition destructure (arr : list R) : option R * option R :=
  (nth_error arr 0, nth_error arr 1).

(** Arithmetic on a possibly undefined operand yields [NaN], here [None]. *)
Definition num1 (f : R -> R) (a : option R) : option R :=
  match a with Some v => Some (f v) | None => None end.

Definition num2 (f : R -> R -> R) (a b : option R) : option R :=
  match a, b with Some v, Some w => Some (f v w) | _, _ => None end.

(** [a <= b] on numbers: false when [a] is [NaN]. *)
Definition numLe (a : option R) (b : R) : bool :=
  match a with
  | Some v => if Rle_dec v b then true else false
  | None => false
  end.

(** The distance computed in the hit loop. *)
Definition hitDistance (clickX clickY : R) (x y : option R) : option R :=
  num1 sqrt (num2 Rplus (num1 (fun v => (clickX - v) ^ 2) x)
                        (num1 (fun v => (clickY - v) ^ 2) y)).

(** The [for (const quake of earthquakes)] loop of [handleClick]; the
    result is the argument of [onSelectEarthquake], if it was called. *)
Fixpoint hitLoop (canvas : Canvas) (clickX clickY : R)
    (earthquakes : list Quake.t) : completion (option Quake.t) :=
  match earthquakes with
  | [] => Normal None
  | quake :: rest =>
      match Quake.coordinates quake with
      | None => TypeError
      | Some arr =>
          let '(lng, lat) := destructure arr in
          let x := num1 (projectX (width canvas)) lng in
          let y := num1 (projectY (height canvas)) lat in
          let distance := hitDistance clickX clickY x y in
          let size := getMagnitudeSize (Quake.mag quake) in
          if numLe distance size
          then Normal (Some quake)
          else hitLoop canvas clickX clickY rest
      end
  end.

(** The test one iteration of the hit loop makes on its marker. *)
Definition markerHit (canvas : Canvas) (clickX clickY : R) (quake : Quake.t) : bool :=
  match Quake.coordinates quake with
  | None => false
  | Some arr =>
      let '(lng, lat) := destructure arr in
      numLe (hitDistance clickX clickY
               (num1 (projectX (width canvas)) lng)
               (num1 (projectY (height canvas)) lat))
            (getMagnitudeSize (Quake.mag quake))
  end.

Definition handleClick
    (canvasRef : option Canvas) (earthquakes : list Quake.t)
    (st : MapState) (clientX clientY : R) : completion (option Quake.t) :=
  if isDragging st then Normal None
  else
    match canvasRef with
    | None => Normal None
    | Some canvas =>
        let clickX := (clientX - rectLeft canvas - Pt.x (pan st)) / zoom st in
        let clickY := (clientY - rectTop canvas - Pt.y (pan st)) / zoom st in
        hitLoop canvas clickX clickY earthquakes
    end.

(** ** The marker loop of the render pass *)

(** One iteration of [earthquakes.forEach] in [drawMap]: the arguments of
    [ctx.arc], the fill settings, and the [lineWidth] of the white outline
    when the marker is the selected one.  The centre is in plane
    coordinates; the canvas transform is [toDevice]. *)
Record ArcFill : Type := mkArcFill {
  arcX : option R;
  arcY : option R;
  arcRadius : R;
  fillStyle : string;
  globalAlpha : R;
  strokeWidth : option R
}.

(** [selectedEarthquake?.id === quake.id] *)
Definition isSelected (selectedEarthquake : option Quake.t) (quake : Quake.t) : bool :=
  match selectedEarthquake with
  | Some s => String.eqb (Quake.id s) (Quake.id quake)
  | None => false
  end.

(** The loop returns the draw calls it made and how it ended: an exception
    leaves the earlier calls on the canvas and abandons the rest. *)
Fixpoint drawMarkers (canvas : Canvas) (st : MapState)
    (selectedEarthquake : option Quake.t) (earthquakes : list Quake.t)
  : list ArcFill * completion unit :=
  match earthquakes with
  | [] => ([], Normal tt)
  | quake :: rest =>
      match Quake.coordinates quake with
      | None => ([], TypeError)
      | Some arr =>
          let '(lng, lat) := destructure arr in
          let x := num1 (projectX (width canvas)) lng in
          let y := num1 (projectY (height canvas)) lat in
          let sel := isSelected selectedEarthquake quake in
          let size := getMagnitudeSize (Quake.mag quake) in
          let color := getMagnitudeColor (Quake.mag quake) in
          let call :=
            {| arcX := x; arcY := y; arcRadius := size / zoom st;
               fillStyle := color;
               globalAlpha := if sel then 1 else 0.7;
               strokeWidth := if sel then Some (2 / zoom st) else None |} in
          let '(calls, ending) := drawMarkers canvas st selectedEarthquake rest in
          (call :: calls, ending)
      end
  end.

(** A canvas [arc] whose centre is [NaN] adds nothing to the path, so the
    [fill] and [stroke] that follow paint nothing. *)
Definition paints (c : ArcFill) : bool :=
  match arcX c, arcY c with
  | Some _, Some _ => true
  | _, _ => false
  end.

(** A marker whose coordinates array holds both entries the loops read. *)
Definition hasLngLat (quake : Quake.t) : bool :=
  match Quake.coordinates quake with
  | Some (_ :: _ :: _) => true
  | _ => false
  end.

(** ** The component as a state machine over input events *)

Inductive Event : Type :=
| Wheel (deltaY : R)
| SearchCoordinates (c : option LatLng)
| MouseDown (clientX clientY : R)
| MouseMove (clientX clientY : R)
| MouseUp
| MouseLeave
| Click (clientX clientY : R).

(** One event: the state the next handler sees, and what the handler did
    with [onSelectEarthquake].  The wheel listener is attached only when the
    canvas is there; [onMouseLeave] is bound to [handleMouseUp]. *)
Definition dispatch (canvasRef : option Canvas) (earthquakes : list Quake.t)
    (st : MapState) (ev : Event) : MapState * completion (option Quake.t) :=
  match ev with
  | Wheel deltaY =>
      (match canvasRef with Some _ => handleWheel st deltaY | None => st end,
       Normal None)
  | SearchCoordinates c => (searchCoordinatesEffect canvasRef c st, Normal None)
  | MouseDown clientX clientY => (handleMouseDown st clientX clientY, Normal None)
  | MouseMove clientX clientY => (handleMouseMove st clientX clientY, Normal None)
  | MouseUp => (handleMouseUp st, Normal None)
  | MouseLeave => (handleMouseUp st, Normal None)
  | Click clientX clientY => (st, handleClick canvasRef earthquakes st clientX clientY)
  end.

(** The calls of [onSelectEarthquake] a handler made. *)
Definition selections (c : completion (option Quake.t)) : list Quake.t :=
  match c with
  | Normal (Some q) => [q]
  | _ => []
  end.

(** A sequence of events: the final state and the log of selections. *)
Fixpoint run (canvasRef : option Canvas) (earthquakes : list Quake.t)
    (st : MapState) (evs : list Event) : MapState * list Quake.t :=
  match evs with
  | [] => (st, [])
  | ev :: rest =>
      let '(st', c) := dispatch canvasRef earthquakes st ev in
      let '(st'', log) := run canvasRef earthquakes st' rest in
      (st'', selections c ++ log)
  end.

(** Events that neither start nor end a drag gesture. *)
Definition keepsDrag (ev : Event) : bool :=
  match ev with
  | MouseDown _ _ | MouseUp | MouseLeave => false
  | _ => true
  end.

(** ** The backdrop of the render pass: grid and continents *)

(** One stroked line: [moveTo (fromX, fromY)], [lineTo (toX, toY)]. *)
Record Segment : Type := mkSegment { fromX : R; fromY : R; toX : R; toY : R }.

(** The values [i] takes in [for (let i = 0; i <= limit; i += 30)], with a
    bound on the number of iterations. *)
Fixpoint forStep30 (fuel : nat) (i limit : Z) : list Z :=
  match fuel with
  | O => []
  | S fuel' =>
      if (i <=? limit)%Z then i :: forStep30 fuel' (i + 30) limit else []
  end.

(** [drawGrid]: the [lineWidth] it sets and the lines it strokes, the
    vertical ones first. *)
Definition drawGrid (st : MapState) (width height : R) : R * list Segment :=
  (0.5 / zoom st,
   map (fun i => let x := (IZR i / 360) * width in mkSegment x 0 x height)
       (forStep30 361 0 360)
   ++ map (fun i => let y := (IZR i / 180) * height in mkSegment 0 y width y)
          (forStep30 181 0 180)).

(** A rectangle, as [{ x, y, w, h }] in the table of continents and as the
    arguments of [fillRect]. *)
Record Rect : Type := mkRect { rx : R; ry : R; rw : R; rh : R }.

Definition continents : list Rect :=
  [ mkRect 0.15 0.25 0.15 0.25;
    mkRect 0.3 0.15 0.25 0.3;
    mkRect 0.4 0.4 0.12 0.2;
    mkRect 0.7 0.2 0.2 0.25;
    mkRect 0.75 0.5 0.15 0.15;
    mkRect 0.85 0.65 0.1 0.1 ].

(** [drawContinents]: the rectangles it fills. *)
Definition drawContinents (width height : R) : list Rect :=
  map (fun cont =>
         mkRect (rx cont * width) (ry cont * height)
                (rw cont * width) (rh cont * height))
      continents.

(** ** EarthquakeMap.tsx, Leaflet version: marker radius *)

(** [Math.max(2, getMagnitudeSize(quake.properties.mag))] *)
Definition pixelSize (quake : Quake.t) : R :=
  Rmax 2 (getMagnitudeSize (Quake.mag quake)).

(** ** App: the magnitude filter *)

(** [earthquakes.filter(quake => quake.properties?.mag >= minMagnitude)];
    the result is the [earthquakes] prop of the map. *)
Definition filteredEarthquakes (earthquakes : list Quake.t) (minMagnitude : R)
  : list Quake.t :=
  filter (fun quake => if Rge_dec (Quake.mag quake) minMagnitude then true else false)
         earthquakes.

(** ** SearchBar.tsx: parsing the search box *)

(** A JavaScript string, as its UTF-16 code units. *)
Definition jsstring : Type := list N.

(** The characters [trim] strips and [\s] matches: the white space and line
    terminator code points of ECMAScript. *)
Definition isWhiteSpace (c : N) : bool :=
  existsb (N.eqb c)
    [9; 10; 11; 12; 13; 32; 160; 5760; 8232; 8233; 8239; 8287; 12288; 65279]%N
  || ((8192 <=? c)%N && (c <=? 8202)%N).

(** The class of [/[...]/g] in [parseCoordinates]: U+00C2, U+00B0 (the
    degree sign) and the comma. *)
Definition isSeparator (c : N) : bool :=
  (c =? 194)%N || (c =? 176)%N || (c =? 44)%N.

(** [input.replace(/[...]/g, ' ')] *)
Definition replaceSeparators (s : jsstring) : jsstring :=
  map (fun c => if isSeparator c then 32%N else c) s.

Fixpoint trimStart (s : jsstring) : jsstring :=
  match s with
  | [] => []
  | c :: rest => if isWhiteSpace c then trimStart rest else s
  end.

Definition trimEnd (s : jsstring) : jsstring := rev (trimStart (rev s)).

(** [s.trim()] *)
Definition trim (s : jsstring) : jsstring := trimEnd (trimStart s).

(** [s.split(/\s+/)]: the pieces between the maximal runs of white space;
    [cur] is the piece being read, reversed, and [inRun] tells that the
    previous character was white space.  A run at the start or at the end
    leaves an empty piece there, and the empty string gives one empty
    piece. *)
Fixpoint splitRuns (inRun : bool) (cur : jsstring) (s : jsstring) : list jsstring :=
  match s with
  | [] => [rev cur]
  | c :: rest =>
      if isWhiteSpace c
      then if inRun then splitRuns true cur rest
           else rev cur :: splitRuns true [] rest
      else splitRuns false (c :: cur) rest
  end.

Definition split (s : jsstring) : list jsstring := splitRuns false [] s.

(** [.filter(Boolean)] on strings keeps the non-empty ones. *)
Definition nonEmpty (s : jsstring) : bool :=
  match s with [] => false | _ :: _ => true end.

(** [a && b] on the tests of the range check. *)
Definition inRange (lo v hi : R) : bool :=
  (if Rge_dec v lo then true else false) && (if Rle_dec v hi then true else false).

(** [parseCoordinates].  [parseFloat] is the built-in, taken as a parameter:
    [None] is [NaN]; an infinite result fails the range test as [NaN] fails
    the [isNaN] test, so it is [None] here as well. *)
Definition parseCoordinates (parseFloat : jsstring -> option R) (input : jsstring)
  : option LatLng :=
  let cleaned := trim (replaceSeparators input) in
  let parts := filter nonEmpty (split cleaned) in
  match parts with
  | [p0; p1] =>
      match parseFloat p0, parseFloat p1 with
      | Some lat, Some lng =>
          if inRange (-90) lat 90 && inRange (-180) lng 180
          then Some (mkLatLng lat lng)
          else None
      | _, _ => None
      end
  | _ => None
  end.

(** What submitting the form does: a call of [onSearch], or the error
    message. *)
Inductive SearchOutcome : Type :=
| OnSearch (coordinates : option LatLng)
| SetError (message : string).

(** [handleSearch] on the current [searchTerm]. *)
Definition handleSearch (parseFloat : jsstring -> option R) (searchTerm : jsstring)
  : SearchOutcome :=
  match trim searchTerm with
  | [] => OnSearch None
  | _ :: _ =>
      match parseCoordinates parseFloat searchTerm with
      | Some coords => OnSearch (Some coords)
      | None =>
          SetError "Invalid coordinates. Use format: lat lng (e.g., 37.7749 -122.4194)"
      end
  end.

(** * Properties *)

(** ** Helper lemmas *)

Lemma Pt_eq (a b c d : R) : Pt.mk a b = Pt.mk c d <-> a = c /\ b = d.
Proof.
  split.
  - intros H; injection H; auto.
  - intros [-> ->]; reflexivity.
Qed.

Lemma clamp_bounds (v : R) : 0.5 <= Rmax 0.5 (Rmin 5 v) <= 5.
Proof.
  split.
  - apply Rmax_l.
  - apply Rmax_lub; [lra | apply Rmin_l].
Qed.

Lemma clamp_id (v : R) : 0.5 <= v <= 5 -> Rmax 0.5 (Rmin 5 v) = v.
Proof.
  intros [Hlo Hhi].
  rewrite (Rmin_right 5 v) by exact Hhi.
  apply Rmax_right; exact Hlo.
Qed.

Lemma div_eq_cross (a z z' : R) :
  z <> 0 -> z' <> 0 -> (a / z' = a / z <-> a = 0 \/ z' = z).
Proof.
  intros Hz Hz'; split.
  - intros H.
    destruct (Req_dec z' z) as [E | N]; [right; exact E | left].
    assert (Hc : a * z = a * z').
    { apply (f_equal (fun t => t * z * z')) in H.
      field_simplify in H; lra. }
    assert (Hm : a * (z - z') = 0) by lra.
    apply Rmult_integral in Hm; destruct Hm; [assumption | exfalso; lra].
  - intros [-> | ->]; [unfold Rdiv; now rewrite !Rmult_0_l | reflexivity].
Qed.

Lemma handleWheel_zoom (st : MapState) (deltaY : R) :
  zoom (handleWheel st deltaY)
  = Rmax 0.5 (Rmin 5 (zoom st * (if Rgt_dec deltaY 0 then 0.9 else 1.1))).
Proof. reflexivity. Qed.

(** ** The event machine *)

Section Machine.

Variable canvasRef : option Canvas.
Variable earthquakes : list Quake.t.

Lemma dispatch_zoom_bounds st ev :
  0.5 <= zoom st <= 5 ->
  0.5 <= zoom (fst (dispatch canvasRef earthquakes st ev)) <= 5.
Proof.
  intros Hz.
  destruct ev as [deltaY | c | cx cy | cx cy | | | cx cy]; simpl; try exact Hz.
  - destruct canvasRef; [apply clamp_bounds | exact Hz].
  - unfold searchCoordinatesEffect.
    destruct c; [destruct canvasRef |]; simpl; try exact Hz; lra.
  - unfold handleMouseMove; destruct (isDragging st); simpl; exact Hz.
Qed.

Lemma run_cons st ev evs :
  fst (run canvasRef earthquakes st (ev :: evs))
  = fst (run canvasRef earthquakes (fst (dispatch canvasRef earthquakes st ev)) evs).
Proof.
  simpl.
  destruct (dispatch canvasRef earthquakes st ev) as [st' c]; simpl.
  destruct (run canvasRef earthquakes st' evs); reflexivity.
Qed.

Lemma run_app st evs1 evs2 :
  fst (run canvasRef earthquakes st (evs1 ++ evs2))
  = fst (run canvasRef earthquakes (fst (run canvasRef earthquakes st evs1)) evs2).
Proof.
  revert st; induction evs1 as [| ev evs1 IH]; intros st.
  - reflexivity.
  - rewrite <- app_comm_cons, !run_cons. apply IH.
Qed.

(** While the button is held, pointer moves keep the drag flag and the
    anchor recorded by [handleMouseDown]. *)
Lemma moves_keep_anchor st (moves : list Pt.t) :
  let st' := fst (run canvasRef earthquakes st
                    (map (fun m => MouseMove (Pt.x m) (Pt.y m)) moves)) in
  isDragging st' = isDragging st /\ dragStart st' = dragStart st.
Proof.
  revert st; induction moves as [| m moves IH]; intros st.
  - simpl; auto.
  - cbn zeta. rewrite map_cons, run_cons.
    specialize (IH (fst (dispatch canvasRef earthquakes st (MouseMove (Pt.x m) (Pt.y m))))).
    cbn zeta in IH. destruct IH as [Hd Ha]. rewrite Hd, Ha.
    simpl. unfold handleMouseMove. destruct (isDragging st) eqn:E; simpl; auto.
Qed.

End Machine.

(** ** Magnitude buckets *)

(** C9. Marker radius and colour are monotonic step functions of the
    magnitude over the buckets below 3, [3,4), [4,5), [5,6), [6,7) and 7 or
    more: the radius is 8, 10, 12, 16, 20, 24 and the colour is green,
    lime, yellow, amber, orange, red, bucket by bucket; neither the radius
    nor the place of the colour on that ramp decreases as the magnitude
    grows; magnitude 6.5 gets radius 20 and the orange #ea580c. *)
Theorem magnitude_bucketing :
  (forall m, m < 3 ->
     getMagnitudeSize m = 8 /\ getMagnitudeColor m = "#22c55e"%string)
  /\ (forall m, 3 <= m < 4 ->
     getMagnitudeSize m = 10 /\ getMagnitudeColor m = "#84cc16"%string)
  /\ (forall m, 4 <= m < 5 ->
     getMagnitudeSize m = 12 /\ getMagnitudeColor m = "#eab308"%string)
  /\ (forall m, 5 <= m < 6 ->
     getMagnitudeSize m = 16 /\ getMagnitudeColor m = "#f59e0b"%string)
  /\ (forall m, 6 <= m < 7 ->
     getMagnitudeSize m = 20 /\ getMagnitudeColor m = "#ea580c"%string)
  /\ (forall m, 7 <= m ->
     getMagnitudeSize m = 24 /\ getMagnitudeColor m = "#dc2626"%string)
  /\ (forall m1 m2, m1 <= m2 -> getMagnitudeSize m1 <= getMagnitudeSize m2)
  /\ (forall m1 m2, m1 <= m2 ->
     exists r1 r2,
       colorRank (getMagnitudeColor m1) = Some r1
       /\ colorRank (getMagnitudeColor m2) = Some r2
       /\ (r1 <= r2)%nat)
  /\ getMagnitudeSize 6.5 = 20
  /\ getMagnitudeColor 6.5 = "#ea580c"%string.
Proof.
  unfold getMagnitudeSize, getMagnitudeColor.
  repeat match goal with |- _ /\ _ => split end;
    intros; magnitude_cases; try (exfalso; lra); try (split; reflexivity);
    try reflexivity; try lra;
    do 2 eexists; (split; [reflexivity | split; [reflexivity | repeat constructor]]).
Qed.

(** ** Viewport transform *)

(** C8. Inverse law: for every viewport state with zoom > 0 and every
    device point d, taking d to the plane (subtract pan, divide by zoom)
    and back to the device (multiply by zoom, add pan) returns d. *)
Theorem toDevice_toPlane (t : MapState) (d : Pt.t) :
  zoom t > 0 -> toDevice t (toPlane t d) = d.
Proof.
  intros Hz. destruct d as [dx dy].
  unfold toDevice, toPlane; simpl.
  apply Pt_eq; split; field; lra.
Qed.

Lemma toDevice_toPlane_witness :
  zoom (mkMapState 2 (Pt.mk 30 (-10)) false (Pt.mk 0 0)) > 0
  /\ toDevice (mkMapState 2 (Pt.mk 30 (-10)) false (Pt.mk 0 0))
       (toPlane (mkMapState 2 (Pt.mk 30 (-10)) false (Pt.mk 0 0)) (Pt.mk 400 300))
     = Pt.mk 400 300.
Proof.
  split.
  - simpl; lra.
  - apply (toDevice_toPlane (mkMapState 2 (Pt.mk 30 (-10)) false (Pt.mk 0 0))
             (Pt.mk 400 300)).
    simpl; lra.
Defined.

(** ** Wheel zoom *)

(** C10. A wheel event changes only the zoom cell: pan after the event is
    pan before it, and the drag flag and the drag anchor are untouched as
    well. *)
Theorem handleWheel_only_zoom (st : MapState) (deltaY : R) :
  pan (handleWheel st deltaY) = pan st
  /\ isDragging (handleWheel st deltaY) = isDragging st
  /\ dragStart (handleWheel st deltaY) = dragStart st.
Proof. repeat split. Qed.

(** C4. Starting from the initial state (zoom 1), after every sequence of
    input events -- wheel events with any deltaY, centring on search
    coordinates, and the pointer events as well -- the zoom lies in
    [0.5, 5]. *)
Theorem zoom_always_clamped
    (canvasRef : option Canvas) (earthquakes : list Quake.t) (evs : list Event) :
  0.5 <= zoom (fst (run canvasRef earthquakes initialState evs)) <= 5.
Proof.
  assert (Hinit : 0.5 <= zoom initialState <= 5) by (simpl; lra).
  revert Hinit. generalize initialState as st.
  induction evs as [| ev evs IH]; intros st Hst.
  - exact Hst.
  - rewrite run_cons. apply IH. apply dispatch_zoom_bounds. exact Hst.
Qed.

(** ** Drag to pan *)

(** C7. A drag that starts with pointer-down at a while pan is p0 and
    whose pointer moves end at e leaves pan = e - a + p0, whatever the
    moves in between; so two pointer paths with the same start and end give
    the same pan. *)
Theorem drag_absolute_delta
    (canvasRef : option Canvas) (earthquakes : list Quake.t)
    (st : MapState) (a e : Pt.t) :
  let gesture (moves : list Pt.t) :=
    MouseDown (Pt.x a) (Pt.y a)
      :: map (fun m => MouseMove (Pt.x m) (Pt.y m)) (moves ++ [e]) in
  (forall moves,
      pan (fst (run canvasRef earthquakes st (gesture moves)))
      = Pt.mk (Pt.x e - Pt.x a + Pt.x (pan st)) (Pt.y e - Pt.y a + Pt.y (pan st)))
  /\ (forall moves1 moves2,
      pan (fst (run canvasRef earthquakes st (gesture moves1)))
      = pan (fst (run canvasRef earthquakes st (gesture moves2)))).
Proof.
  intros gesture.
  assert (Hpan : forall moves,
      pan (fst (run canvasRef earthquakes st (gesture moves)))
      = Pt.mk (Pt.x e - Pt.x a + Pt.x (pan st)) (Pt.y e - Pt.y a + Pt.y (pan st))).
  { intros moves. unfold gesture.
    rewrite run_cons, map_app, run_app.
    destruct (moves_keep_anchor canvasRef earthquakes
                (fst (dispatch canvasRef earthquakes st (MouseDown (Pt.x a) (Pt.y a))))
                moves) as [Hd Ha].
    set (s0 := fst (dispatch canvasRef earthquakes st (MouseDown (Pt.x a) (Pt.y a)))) in *.
    set (s1 := fst (run canvasRef earthquakes s0
                      (map (fun m => MouseMove (Pt.x m) (Pt.y m)) moves))) in *.
    change (pan (handleMouseMove s1 (Pt.x e) (Pt.y e))
            = Pt.mk (Pt.x e - Pt.x a + Pt.x (pan st))
                    (Pt.y e - Pt.y a + Pt.y (pan st))).
    unfold handleMouseMove. rewrite Hd, Ha. simpl.
    apply Pt_eq; split; lra. }
  split.
  - exact Hpan.
  - intros moves1 moves2. now rewrite !Hpan.
Qed.

(** ** Wheel zoom and the pivot *)

Lemma handleWheel_zoom_out_initial : zoom (handleWheel initialState 100) = 0.9.
Proof.
  rewrite handleWheel_zoom.
  destruct (Rgt_dec 100 0) as [_ | N]; [| exfalso; lra].
  simpl zoom. rewrite clamp_id; lra.
Qed.

(** C1, as stated, fails: from zoom 1 and pan (0,0), a zoom-out tick at the
    pivot (400,300) moves the plane point under the pivot. *)
Lemma wheel_zoom_moves_pivot :
  0.5 <= zoom initialState <= 5
  /\ toPlane (handleWheel initialState 100) (Pt.mk 400 300)
     <> toPlane initialState (Pt.mk 400 300).
Proof.
  split; [simpl; lra |].
  unfold toPlane. rewrite handleWheel_zoom_out_initial. simpl.
  intros H. apply Pt_eq in H. lra.
Qed.

(** C1, amended. For every viewport state with zoom in [0.5, 5] and every
    wheel event, the zoom is multiplied by 0.9 when deltaY > 0 and by 1.1
    otherwise and then clamped to [0.5, 5], and pan is left as it is: the
    zoom is about the device point equal to pan, not about the pointer.
    The plane point under a device pivot p is the same before and after
    exactly when p is the pan offset or the clamped zoom did not change. *)
Theorem wheel_zoom_about_pan_origin (st : MapState) (deltaY : R) (p : Pt.t) :
  0.5 <= zoom st <= 5 ->
  let st' := handleWheel st deltaY in
  zoom st' = Rmax 0.5 (Rmin 5 (zoom st * (if Rgt_dec deltaY 0 then 0.9 else 1.1)))
  /\ 0.5 <= zoom st' <= 5
  /\ pan st' = pan st
  /\ (toPlane st' p = toPlane st p <-> p = pan st \/ zoom st' = zoom st).
Proof.
  intros Hz st'.
  assert (Hz' : 0.5 <= zoom st' <= 5) by apply clamp_bounds.
  repeat split; try reflexivity; try apply Hz'.
  - intros H. unfold toPlane in H. apply Pt_eq in H. destruct H as [Hx Hy].
    change (pan st') with (pan st) in Hx, Hy.
    apply div_eq_cross in Hx; [| lra | lra].
    apply div_eq_cross in Hy; [| lra | lra].
    destruct Hx as [Hx | Hx]; [| right; exact Hx].
    destruct Hy as [Hy | Hy]; [| right; exact Hy].
    left. destruct p as [px py], (pan st) as [qx qy]; simpl in *.
    apply Pt_eq; split; lra.
  - intros [Hp | Hzz]; unfold toPlane; change (pan st') with (pan st).
    + subst p. apply Pt_eq; split; unfold Rdiv; rewrite !Rminus_diag, !Rmult_0_l;
        reflexivity.
    + rewrite Hzz; reflexivity.
Qed.

Lemma wheel_zoom_about_pan_origin_witness :
  0.5 <= zoom initialState <= 5
  /\ pan (handleWheel initialState 100) = pan initialState
  /\ (toPlane (handleWheel initialState 100) (Pt.mk 0 0)
      = toPlane initialState (Pt.mk 0 0)
      <-> Pt.mk 0 0 = pan initialState
          \/ zoom (handleWheel initialState 100) = zoom initialState).
Proof.
  assert (H : 0.5 <= zoom initialState <= 5) by (simpl; lra).
  split; [exact H |].
  apply (wheel_zoom_about_pan_origin initialState 100 (Pt.mk 0 0)) in H.
  destruct H as (_ & _ & Hp & Hiff).
  split; [exact Hp | exact Hiff].
Defined.

(** ** Centring on searched coordinates *)

(** C3, as stated, fails: centring on the San Francisco coordinates with an
    800 by 600 canvas does not end at zoom 5. *)
Lemma centering_zoom_is_not_5 :
  zoom (searchCoordinatesEffect (Some (mkCanvas 800 600 0 0))
          (Some (mkLatLng 37.7749 (-122.4194))) initialState) <> 5.
Proof. simpl. lra. Qed.

(** C3, amended. When a search coordinate arrives (and the canvas is
    there), zoom is set to 2 -- the component takes no target zoom -- and
    pan is set so that the projected plane point of the coordinate lands at
    the centre of the canvas; from zoom 1 and pan (0,0), centring on
    lat 37.7749, lng -122.4194 with an 800 by 600 canvas puts that point at
    device (400,300) with zoom 2. *)
Theorem centering_lands_at_center_zoom_2 :
  (forall (canvas : Canvas) (sc : LatLng) (st : MapState),
      let st' := searchCoordinatesEffect (Some canvas) (Some sc) st in
      zoom st' = 2
      /\ toDevice st' (project (width canvas) (height canvas) sc)
         = Pt.mk (width canvas / 2) (height canvas / 2))
  /\ (let sf := mkLatLng 37.7749 (-122.4194) in
      let st' := searchCoordinatesEffect (Some (mkCanvas 800 600 0 0)) (Some sf)
                   initialState in
      zoom st' = 2 /\ toDevice st' (project 800 600 sf) = Pt.mk 400 300).
Proof.
  assert (G : forall (canvas : Canvas) (sc : LatLng) (st : MapState),
      let st' := searchCoordinatesEffect (Some canvas) (Some sc) st in
      zoom st' = 2
      /\ toDevice st' (project (width canvas) (height canvas) sc)
         = Pt.mk (width canvas / 2) (height canvas / 2)).
  { intros canvas sc st st'. split; [reflexivity |].
    unfold toDevice, project, projectX, projectY; simpl.
    apply Pt_eq; split; lra. }
  split; [exact G |].
  intros sf st'. split; [reflexivity |].
  destruct (G (mkCanvas 800 600 0 0) sf initialState) as [_ H].
  simpl width in H; simpl height in H. fold st' in H. rewrite H.
  apply Pt_eq; split; lra.
Qed.

(** ** Click hit-testing *)

(** The comparison [distance <= size] of the hit loop, in squares. *)
Lemma hit_condition (clickX clickY x y size : R) :
  0 <= size ->
  (numLe (hitDistance clickX clickY (Some x) (Some y)) size = true
   <-> (clickX - x) ^ 2 + (clickY - y) ^ 2 <= size ^ 2).
Proof.
  intros Hs. unfold hitDistance, numLe, num1, num2.
  set (s := (clickX - x) ^ 2 + (clickY - y) ^ 2).
  assert (Hs0 : 0 <= s).
  { unfold s. pose proof (pow2_ge_0 (clickX - x)). pose proof (pow2_ge_0 (clickY - y)).
    lra. }
  pose proof (sqrt_pos s) as Hp.
  pose proof (sqrt_sqrt s Hs0) as Hq.
  replace (size ^ 2) with (size * size) by ring.
  destruct (Rle_dec (sqrt s) size) as [L | N]; split; intros H;
    try reflexivity; try discriminate.
  - rewrite <- Hq. apply Rmult_le_compat; assumption.
  - exfalso. apply N.
    destruct (Rle_lt_dec (sqrt s) size) as [L | G]; [exact L |].
    assert (size * size < sqrt s * sqrt s).
    { apply Rmult_le_0_lt_compat; assumption. }
    lra.
Qed.

Lemma getMagnitudeSize_nonneg (m : R) : 0 <= getMagnitudeSize m.
Proof. unfold getMagnitudeSize. magnitude_cases; lra. Qed.

Lemma hitLoop_hit canvas clickX clickY quake rest lng lat tl :
  Quake.coordinates quake = Some (lng :: lat :: tl) ->
  (clickX - projectX (width canvas) lng) ^ 2
    + (clickY - projectY (height canvas) lat) ^ 2
    <= getMagnitudeSize (Quake.mag quake) ^ 2 ->
  hitLoop canvas clickX clickY (quake :: rest) = Normal (Some quake).
Proof.
  intros Hc Hd. cbn [hitLoop]. rewrite Hc. cbn [destructure nth_error num1].
  apply (hit_condition _ _ _ _ _ (getMagnitudeSize_nonneg _)) in Hd.
  rewrite Hd. reflexivity.
Qed.

Lemma hitLoop_miss canvas clickX clickY quake rest lng lat tl :
  Quake.coordinates quake = Some (lng :: lat :: tl) ->
  (clickX - projectX (width canvas) lng) ^ 2
    + (clickY - projectY (height canvas) lat) ^ 2
    > getMagnitudeSize (Quake.mag quake) ^ 2 ->
  hitLoop canvas clickX clickY (quake :: rest) = hitLoop canvas clickX clickY rest.
Proof.
  intros Hc Hd. cbn [hitLoop]. rewrite Hc. cbn [destructure nth_error num1].
  destruct (numLe _ _) eqn:E; [| reflexivity].
  apply (hit_condition _ _ _ _ _ (getMagnitudeSize_nonneg _)) in E. lra.
Qed.

(** A marker whose array lacks [lng] or [lat] is stepped over: its distance
    is [NaN] and the comparison fails. *)
Lemma hitLoop_short canvas clickX clickY quake rest arr :
  Quake.coordinates quake = Some arr ->
  hasLngLat quake = false ->
  hitLoop canvas clickX clickY (quake :: rest) = hitLoop canvas clickX clickY rest.
Proof.
  intros Hc Hs. unfold hasLngLat in Hs. rewrite Hc in Hs.
  cbn [hitLoop]. rewrite Hc.
  destruct arr as [| a [| b tl]]; try discriminate; reflexivity.
Qed.

Lemma hitLoop_cons canvas clickX clickY quake rest arr :
  Quake.coordinates quake = Some arr ->
  hitLoop canvas clickX clickY (quake :: rest)
  = if markerHit canvas clickX clickY quake
    then Normal (Some quake)
    else hitLoop canvas clickX clickY rest.
Proof.
  intros Hc. unfold markerHit. cbn [hitLoop]. rewrite Hc.
  destruct (destructure arr) as [lng lat]. reflexivity.
Qed.

Lemma getMagnitudeSize_3 : getMagnitudeSize 3 = 10.
Proof. unfold getMagnitudeSize. magnitude_cases; lra. Qed.

(** C2. With zoom 2 the hit loop selects a marker that lies farther from
    the click than its radius in plane units.  Canvas 360 by 180, state as
    left by centring on lat 0, lng 0 (zoom 2, pan (-180,-90)), one marker of
    magnitude 3 at lat 0, lng 0, click at client (196, 90): the click is at
    plane (188, 90), the marker at plane (180, 90), distance 8; the marker
    is drawn with radius 10 / 2 = 5 plane units; [handleClick] compares the
    distance with 10 and calls the selection callback. *)
Theorem hit_test_radius_not_divided_by_zoom :
  let canvas := mkCanvas 360 180 0 0 in
  let quake := Quake.mk "q1" 3 "Gulf of Guinea" (Some [0; 0; 10]) in
  let st := searchCoordinatesEffect (Some canvas) (Some (mkLatLng 0 0)) initialState in
  toPlane st (Pt.mk 196 90) = Pt.mk 188 90
  /\ project 360 180 (mkLatLng 0 0) = Pt.mk 180 90
  /\ hitDistance 188 90 (Some 180) (Some 90) = Some 8
  /\ fst (drawMarkers canvas st None [quake])
     = [mkArcFill (Some (projectX 360 0)) (Some (projectY 180 0))
          (getMagnitudeSize 3 / 2) (getMagnitudeColor 3) 0.7 None]
  /\ 8 > getMagnitudeSize (Quake.mag quake) / zoom st
  /\ handleClick (Some canvas) [quake] st 196 90 = Normal (Some quake).
Proof.
  intros canvas quake st.
  repeat split.
  - unfold toPlane; simpl. apply Pt_eq; split; lra.
  - unfold project, projectX, projectY; simpl. apply Pt_eq; split; lra.
  - unfold hitDistance; simpl. f_equal.
    replace ((188 - 180) * ((188 - 180) * 1) + (90 - 90) * ((90 - 90) * 1))
      with (8 * 8) by lra.
    apply sqrt_square; lra.
  - simpl. rewrite getMagnitudeSize_3. lra.
  - unfold handleClick. cbn [isDragging st searchCoordinatesEffect setZoom setPan initialState].
    eapply hitLoop_hit; [reflexivity |].
    cbn [Quake.mag quake]. rewrite getMagnitudeSize_3.
    unfold projectX, projectY; simpl. lra.
Qed.

(** ** Click at the end of a drag *)

(** C5. A click that ends a drag gesture reaches the selection callback:
    [handleMouseUp] has cleared the drag flag by the time [handleClick]
    tests it.  Canvas 360 by 180, one marker of magnitude 3 at lat 0, lng 0
    (plane (180, 90)), initial state: press at (180, 90), move to
    (150, 80), release, click at (150, 80).  The flag is set during the
    gesture, pan has moved to (-30, -10), and the click selects the
    marker. *)
Theorem click_after_drag_selects :
  let canvas := mkCanvas 360 180 0 0 in
  let quake := Quake.mk "q1" 3 "Gulf of Guinea" (Some [0; 0; 10]) in
  let drag := [MouseDown 180 90; MouseMove 150 80] in
  isDragging (fst (run (Some canvas) [quake] initialState drag)) = true
  /\ pan (fst (run (Some canvas) [quake] initialState (drag ++ [MouseUp])))
     = Pt.mk (-30) (-10)
  /\ isDragging (fst (run (Some canvas) [quake] initialState (drag ++ [MouseUp])))
     = false
  /\ snd (run (Some canvas) [quake] initialState (drag ++ [MouseUp; Click 150 80]))
     = [quake].
Proof.
  intros canvas quake drag.
  split; [reflexivity |].
  split; [simpl; apply Pt_eq; split; lra |].
  split; [reflexivity |].
  cbn [drag app run dispatch handleMouseDown handleMouseMove handleMouseUp
       setDragStart setIsDragging setPan isDragging dragStart pan zoom
       initialState Pt.x Pt.y selections snd handleClick].
  erewrite hitLoop_hit; [reflexivity | reflexivity |].
  cbn [Quake.mag quake]. rewrite getMagnitudeSize_3.
  unfold projectX, projectY; simpl. lra.
Qed.

(** What the guard of [handleClick] does give: a click delivered while the
    drag flag is still set calls nothing. *)
Lemma handleClick_while_dragging canvasRef earthquakes st clientX clientY :
  isDragging st = true ->
  handleClick canvasRef earthquakes st clientX clientY = Normal None.
Proof. intros H. unfold handleClick. rewrite H. reflexivity. Qed.

(** ** Markers without coordinates *)

Lemma hitLoop_filter canvas clickX clickY earthquakes :
  (forall q, In q earthquakes -> Quake.coordinates q <> None) ->
  hitLoop canvas clickX clickY earthquakes
  = hitLoop canvas clickX clickY (filter hasLngLat earthquakes).
Proof.
  induction earthquakes as [| quake rest IH]; intros Hall; [reflexivity |].
  assert (Hrest : forall q, In q rest -> Quake.coordinates q <> None)
    by (intros q Hq; apply Hall; right; exact Hq).
  specialize (IH Hrest).
  destruct (Quake.coordinates quake) as [arr |] eqn:Hc.
  - cbn [filter]. destruct (hasLngLat quake) eqn:E.
    + rewrite !(hitLoop_cons _ _ _ _ _ _ Hc), IH. reflexivity.
    + rewrite (hitLoop_short _ _ _ _ _ _ Hc E). exact IH.
  - exfalso. apply (Hall quake); [left; reflexivity | exact Hc].
Qed.

Lemma hitLoop_selected_in canvas clickX clickY earthquakes q :
  hitLoop canvas clickX clickY earthquakes = Normal (Some q) -> In q earthquakes.
Proof.
  induction earthquakes as [| quake rest IH]; [discriminate |].
  destruct (Quake.coordinates quake) as [arr |] eqn:Hc.
  - rewrite (hitLoop_cons _ _ _ _ _ _ Hc).
    destruct (markerHit canvas clickX clickY quake).
    + intros H; injection H as ->; left; reflexivity.
    + intros H; right; apply IH; exact H.
  - cbn [hitLoop]. rewrite Hc. discriminate.
Qed.

Lemma hitLoop_completes canvas clickX clickY earthquakes :
  (forall q, In q earthquakes -> Quake.coordinates q <> None) ->
  hitLoop canvas clickX clickY earthquakes <> TypeError.
Proof.
  induction earthquakes as [| quake rest IH]; intros Hall; [discriminate |].
  destruct (Quake.coordinates quake) as [arr |] eqn:Hc.
  - rewrite (hitLoop_cons _ _ _ _ _ _ Hc).
    destruct (markerHit canvas clickX clickY quake); [discriminate |].
    apply IH. intros q Hq. apply Hall. right. exact Hq.
  - exfalso. apply (Hall quake); [left; reflexivity | exact Hc].
Qed.

Lemma drawMarkers_arrays canvas st selectedEarthquake earthquakes :
  (forall q, In q earthquakes -> Quake.coordinates q <> None) ->
  let pass := drawMarkers canvas st selectedEarthquake earthquakes in
  snd pass = Normal tt
  /\ List.length (fst pass) = List.length earthquakes
  /\ filter paints (fst pass)
     = fst (drawMarkers canvas st selectedEarthquake (filter hasLngLat earthquakes)).
Proof.
  induction earthquakes as [| quake rest IH]; intros Hall.
  - repeat split.
  - assert (Hrest : forall q, In q rest -> Quake.coordinates q <> None)
      by (intros q Hq; apply Hall; right; exact Hq).
    specialize (IH Hrest). cbn zeta in IH. destruct IH as (He & Hl & Hf).
    destruct (Quake.coordinates quake) as [arr |] eqn:Hc;
      [| exfalso; apply (Hall quake); [left; reflexivity | exact Hc]].
    cbn [filter drawMarkers]. rewrite Hc.
    destruct (drawMarkers canvas st selectedEarthquake rest) as [calls ending].
    cbn [fst snd] in He, Hl, Hf.
    destruct arr as [| a [| b tl]]; cbn [destructure nth_error num1].
    + replace (hasLngLat quake) with false by (unfold hasLngLat; now rewrite Hc).
      cbn [fst snd List.length filter paints arcX arcY]. repeat split; congruence.
    + replace (hasLngLat quake) with false by (unfold hasLngLat; now rewrite Hc).
      cbn [fst snd List.length filter paints arcX arcY]. repeat split; congruence.
    + replace (hasLngLat quake) with true by (unfold hasLngLat; now rewrite Hc).
      cbn [drawMarkers]. rewrite Hc. cbn [destructure nth_error num1].
      destruct (drawMarkers canvas st selectedEarthquake (filter hasLngLat rest))
        as [calls' ending'].
      cbn [fst snd List.length filter paints arcX arcY] in *.
      repeat split; congruence.
Qed.

(** C6, as stated, fails: a marker whose coordinates are absent makes the
    destructuring in both loops throw, and the marker that follows it is
    neither drawn nor tested, although on its own it would be selected. *)
Lemma absent_coordinates_abort_the_pass :
  let canvas := mkCanvas 360 180 0 0 in
  let bad := Quake.mk "q0" 5 "unknown" None in
  let good := Quake.mk "q1" 3 "Gulf of Guinea" (Some [0; 0; 10]) in
  handleClick (Some canvas) [good] initialState 180 90 = Normal (Some good)
  /\ handleClick (Some canvas) [bad; good] initialState 180 90 = TypeError
  /\ drawMarkers canvas initialState None [bad; good] = ([], TypeError).
Proof.
  intros canvas bad good. repeat split.
  unfold handleClick. cbn [isDragging initialState].
  eapply hitLoop_hit; [reflexivity |].
  cbn [Quake.mag good]. rewrite getMagnitudeSize_3.
  unfold projectX, projectY; simpl. lra.
Qed.

(** C6, amended. When every marker's coordinates property is an array, a
    marker whose array lacks the longitude or the latitude entry is skipped
    by both passes and the other markers are still processed: click
    hit-testing ends normally, gives the result it gives on the list
    without those markers, and never selects one of them; the render loop
    ends normally after one arc call per marker, and what it paints is what
    it draws for the list without those markers.  (For an absent
    coordinates property the component has no guard.) *)
Theorem short_coordinates_are_skipped
    (canvasRef : option Canvas) (canvas : Canvas) (st : MapState)
    (selectedEarthquake : option Quake.t) (earthquakes : list Quake.t)
    (clientX clientY : R) :
  (forall q, In q earthquakes -> Quake.coordinates q <> None) ->
  handleClick canvasRef earthquakes st clientX clientY
  = handleClick canvasRef (filter hasLngLat earthquakes) st clientX clientY
  /\ handleClick canvasRef earthquakes st clientX clientY <> TypeError
  /\ (forall q, handleClick canvasRef earthquakes st clientX clientY = Normal (Some q) ->
                In q earthquakes /\ hasLngLat q = true)
  /\ snd (drawMarkers canvas st selectedEarthquake earthquakes) = Normal tt
  /\ List.length (fst (drawMarkers canvas st selectedEarthquake earthquakes))
     = List.length earthquakes
  /\ filter paints (fst (drawMarkers canvas st selectedEarthquake earthquakes))
     = fst (drawMarkers canvas st selectedEarthquake (filter hasLngLat earthquakes)).
Proof.
  intros Hall.
  assert (Hclick : handleClick canvasRef earthquakes st clientX clientY
                   = handleClick canvasRef (filter hasLngLat earthquakes) st
                       clientX clientY).
  { unfold handleClick. destruct (isDragging st); [reflexivity |].
    destruct canvasRef as [c |]; [| reflexivity].
    apply hitLoop_filter. exact Hall. }
  split; [exact Hclick |].
  split.
  { unfold handleClick. destruct (isDragging st); [discriminate |].
    destruct canvasRef as [c |]; [| discriminate].
    apply hitLoop_completes. exact Hall. }
  split.
  { intros q Hq. rewrite Hclick in Hq. unfold handleClick in Hq.
    destruct (isDragging st); [discriminate |].
    destruct canvasRef as [c |]; [| discriminate].
    apply hitLoop_selected_in in Hq. apply filter_In in Hq. exact Hq. }
  apply drawMarkers_arrays. exact Hall.
Qed.

Lemma short_coordinates_are_skipped_witness :
  let canvas := mkCanvas 360 180 0 0 in
  let short := Quake.mk "q0" 5 "unknown" (Some []) in
  let good := Quake.mk "q1" 3 "Gulf of Guinea" (Some [0; 0; 10]) in
  (forall q, In q [short; good] -> Quake.coordinates q <> None)
  /\ handleClick (Some canvas) [short; good] initialState 180 90
     = handleClick (Some canvas) [good] initialState 180 90
  /\ snd (drawMarkers canvas initialState None [short; good]) = Normal tt.
Proof.
  intros canvas short good.
  assert (Hall : forall q, In q [short; good] -> Quake.coordinates q <> None).
  { intros q [<- | [<- | []]]; discriminate. }
  split; [exact Hall |].
  destruct (short_coordinates_are_skipped (Some canvas) canvas initialState None
              [short; good] 180 90 Hall) as (Hc & _ & _ & Hd & _).
  split; [exact Hc | exact Hd].
Defined.

(** * Further properties of the map component *)

(** ** Projection *)

(** X1. Coordinates in the geographic range land inside the canvas: for
    a canvas of non-negative size, longitude in [-180, 180] and latitude in
    [-90, 90] project to x in [0, width] and y in [0, height]. *)
Theorem project_inside_canvas (w h : R) (g : LatLng) :
  0 <= w -> 0 <= h ->
  -180 <= lng g <= 180 -> -90 <= lat g <= 90 ->
  0 <= Pt.x (project w h g) <= w /\ 0 <= Pt.y (project w h g) <= h.
Proof.
  intros Hw Hh Hlng Hlat. unfold project, projectX, projectY; simpl. nra.
Qed.

Lemma project_inside_canvas_witness :
  0 <= Pt.x (project 800 600 (mkLatLng 37.7749 (-122.4194))) <= 800
  /\ 0 <= Pt.y (project 800 600 (mkLatLng 37.7749 (-122.4194))) <= 600.
Proof.
  apply (project_inside_canvas 800 600 (mkLatLng 37.7749 (-122.4194)));
    simpl; lra.
Defined.

(** X2. On a canvas of positive size the projection keeps the order of
    the globe -- east is to the right, north is up -- and two different
    coordinates never share a plane point. *)
Theorem project_order_and_injective (w h : R) :
  0 < w -> 0 < h ->
  (forall l1 l2, l1 < l2 -> projectX w l1 < projectX w l2)
  /\ (forall a1 a2, a1 < a2 -> projectY h a2 < projectY h a1)
  /\ (forall g1 g2, project w h g1 = project w h g2 -> g1 = g2).
Proof.
  intros Hw Hh. unfold project, projectX, projectY.
  split; [| split].
  - intros l1 l2 Hl. apply Rmult_lt_compat_r; lra.
  - intros a1 a2 Ha. apply Rmult_lt_compat_r; lra.
  - intros [lat1 lng1] [lat2 lng2] H. simpl in H. apply Pt_eq in H.
    destruct H as [Hx Hy].
    apply Rmult_eq_reg_r in Hx; [| lra].
    apply Rmult_eq_reg_r in Hy; [| lra].
    f_equal; lra.
Qed.

Lemma project_order_and_injective_witness :
  projectX 800 (-122.4194) < projectX 800 0
  /\ projectY 600 37.7749 < projectY 600 0.
Proof.
  destruct (project_order_and_injective 800 600) as (Hx & Hy & _); [lra | lra |].
  split; [apply Hx | apply Hy]; lra.
Defined.

(** ** Click hit-testing: which marker wins *)

Lemma hitLoop_first_match canvas clickX clickY earthquakes :
  (forall q, In q earthquakes -> Quake.coordinates q <> None) ->
  (forall q,
      hitLoop canvas clickX clickY earthquakes = Normal (Some q)
      <-> exists pre post,
            earthquakes = pre ++ q :: post
            /\ (forall p, In p pre -> markerHit canvas clickX clickY p = false)
            /\ markerHit canvas clickX clickY q = true)
  /\ (hitLoop canvas clickX clickY earthquakes = Normal None
      <-> forall p, In p earthquakes -> markerHit canvas clickX clickY p = false).
Proof.
  induction earthquakes as [| quake rest IH]; intros Hall.
  - split.
    + intros q; split; [discriminate |].
      intros (pre & post & E & _). destruct pre; discriminate.
    + split; [intros _ p [] | reflexivity].
  - assert (Hrest : forall q, In q rest -> Quake.coordinates q <> None)
      by (intros q Hq; apply Hall; right; exact Hq).
    destruct (IH Hrest) as [IHs IHn]. clear IH.
    destruct (Quake.coordinates quake) as [arr |] eqn:Hc;
      [| exfalso; apply (Hall quake); [left; reflexivity | exact Hc]].
    rewrite (hitLoop_cons _ _ _ _ _ _ Hc).
    destruct (markerHit canvas clickX clickY quake) eqn:Hm.
    + split.
      * intros q; split.
        -- intros H; injection H as <-. exists [], rest.
           repeat split; [intros p [] | exact Hm].
        -- intros (pre & post & E & Hpre & Hq).
           destruct pre as [| p pre]; simpl in E; injection E as <- E.
           ++ reflexivity.
           ++ rewrite (Hpre quake) in Hm by (left; reflexivity). discriminate.
      * split; [discriminate |].
        intros H. rewrite (H quake) in Hm by (left; reflexivity). discriminate.
    + split.
      * intros q; rewrite IHs; split.
        -- intros (pre & post & E & Hpre & Hq). exists (quake :: pre), post.
           repeat split; [simpl; now rewrite E | | exact Hq].
           intros p [<- | Hp]; [exact Hm | apply Hpre; exact Hp].
        -- intros (pre & post & E & Hpre & Hq).
           destruct pre as [| p pre]; simpl in E; injection E as <- E.
           ++ rewrite Hq in Hm; discriminate.
           ++ exists pre, post. repeat split; [exact E | | exact Hq].
              intros p Hp; apply Hpre; right; exact Hp.
      * rewrite IHn; split.
        -- intros H p [<- | Hp]; [exact Hm | apply H; exact Hp].
        -- intros H p Hp; apply H; right; exact Hp.
Qed.

(** X3. First match wins.  With the drag flag clear, a canvas, and every
    marker's coordinates an array, a click calls the selection callback
    with q exactly when q is the first marker of the list that passes the
    hit test at the click's plane point, and calls nothing exactly when no
    marker passes it. *)
Theorem handleClick_first_match
    (canvas : Canvas) (earthquakes : list Quake.t) (st : MapState)
    (clientX clientY : R) :
  isDragging st = false ->
  (forall q, In q earthquakes -> Quake.coordinates q <> None) ->
  let clickX := (clientX - rectLeft canvas - Pt.x (pan st)) / zoom st in
  let clickY := (clientY - rectTop canvas - Pt.y (pan st)) / zoom st in
  (forall q,
      handleClick (Some canvas) earthquakes st clientX clientY = Normal (Some q)
      <-> exists pre post,
            earthquakes = pre ++ q :: post
            /\ (forall p, In p pre -> markerHit canvas clickX clickY p = false)
            /\ markerHit canvas clickX clickY q = true)
  /\ (handleClick (Some canvas) earthquakes st clientX clientY = Normal None
      <-> forall p, In p earthquakes -> markerHit canvas clickX clickY p = false).
Proof.
  intros Hd Hall clickX clickY. unfold handleClick. rewrite Hd.
  apply hitLoop_first_match. exact Hall.
Qed.

Lemma handleClick_first_match_witness :
  let canvas := mkCanvas 360 180 0 0 in
  let far := Quake.mk "q0" 3 "Fiji" (Some [178; -18; 10]) in
  let near := Quake.mk "q1" 3 "Gulf of Guinea" (Some [0; 0; 10]) in
  handleClick (Some canvas) [far; near] initialState 180 90 = Normal (Some near)
  <-> exists pre post,
        [far; near] = pre ++ near :: post
        /\ (forall p, In p pre ->
                      markerHit canvas ((180 - 0 - 0) / 1) ((90 - 0 - 0) / 1) p = false)
        /\ markerHit canvas ((180 - 0 - 0) / 1) ((90 - 0 - 0) / 1) near = true.
Proof.
  intros canvas far near.
  apply (handleClick_first_match canvas [far; near] initialState 180 90).
  - reflexivity.
  - intros q [<- | [<- | []]]; discriminate.
Defined.

(** X4. The clickable disc in device pixels.  For zoom > 0 and a marker
    with longitude and latitude, a device point d passes the marker's hit
    test exactly when its distance to the marker's place on the screen is at
    most getMagnitudeSize(mag) * zoom: the clickable radius grows with the
    zoom. *)
Theorem hit_area_in_device_pixels
    (canvas : Canvas) (st : MapState) (quake : Quake.t) (lng lat : R)
    (tl : list R) (d : Pt.t) :
  zoom st > 0 ->
  Quake.coordinates quake = Some (lng :: lat :: tl) ->
  let m := toDevice st (Pt.mk (projectX (width canvas) lng)
                              (projectY (height canvas) lat)) in
  let p := toPlane st d in
  markerHit canvas (Pt.x p) (Pt.y p) quake = true
  <-> (Pt.x d - Pt.x m) ^ 2 + (Pt.y d - Pt.y m) ^ 2
      <= (getMagnitudeSize (Quake.mag quake) * zoom st) ^ 2.
Proof.
  intros Hz Hc m p. unfold markerHit. rewrite Hc.
  cbn [destructure nth_error num1].
  rewrite (hit_condition _ _ _ _ _ (getMagnitudeSize_nonneg _)).
  unfold p, m, toPlane, toDevice. cbn [Pt.x Pt.y].
  set (x := projectX (width canvas) lng).
  set (y := projectY (height canvas) lat).
  set (s := getMagnitudeSize (Quake.mag quake)).
  set (z := zoom st) in *.
  set (u := (Pt.x d - Pt.x (pan st)) / z).
  set (v := (Pt.y d - Pt.y (pan st)) / z).
  assert (Hu : Pt.x d - (x * z + Pt.x (pan st)) = z * (u - x))
    by (unfold u; field; lra).
  assert (Hv : Pt.y d - (y * z + Pt.y (pan st)) = z * (v - y))
    by (unfold v; field; lra).
  rewrite Hu, Hv.
  replace ((z * (u - x)) ^ 2 + (z * (v - y)) ^ 2)
    with (z ^ 2 * ((u - x) ^ 2 + (v - y) ^ 2)) by ring.
  replace ((s * z) ^ 2) with (z ^ 2 * s ^ 2) by ring.
  assert (Hz2 : 0 < z ^ 2) by (apply pow_lt; lra).
  split; intros H.
  - apply Rmult_le_compat_l; lra.
  - apply (Rmult_le_reg_l (z ^ 2)); assumption.
Qed.

Lemma hit_area_in_device_pixels_witness :
  let canvas := mkCanvas 360 180 0 0 in
  let st := mkMapState 2 (Pt.mk (-180) (-90)) false (Pt.mk 0 0) in
  let quake := Quake.mk "q1" 3 "Gulf of Guinea" (Some [0; 0; 10]) in
  let m := toDevice st (Pt.mk (projectX 360 0) (projectY 180 0)) in
  let p := toPlane st (Pt.mk 196 90) in
  markerHit canvas (Pt.x p) (Pt.y p) quake = true
  <-> (196 - Pt.x m) ^ 2 + (90 - Pt.y m) ^ 2 <= (getMagnitudeSize 3 * 2) ^ 2.
Proof.
  intros canvas st quake.
  apply (hit_area_in_device_pixels canvas st quake 0 0 [10] (Pt.mk 196 90)).
  - simpl; lra.
  - reflexivity.
Defined.

Lemma markerHit_at_centre canvas quake lng lat tl :
  Quake.coordinates quake = Some (lng :: lat :: tl) ->
  markerHit canvas (projectX (width canvas) lng) (projectY (height canvas) lat) quake
  = true.
Proof.
  intros Hc. unfold markerHit. rewrite Hc. cbn [destructure nth_error num1].
  apply (hit_condition _ _ _ _ _ (getMagnitudeSize_nonneg _)).
  rewrite !Rminus_diag.
  pose proof (pow2_ge_0 (getMagnitudeSize (Quake.mag quake))). lra.
Qed.

Lemma hitLoop_some_iff canvas clickX clickY earthquakes q :
  (forall p, In p earthquakes -> Quake.coordinates p <> None) ->
  (hitLoop canvas clickX clickY earthquakes = Normal (Some q)
   <-> exists pre post,
         earthquakes = pre ++ q :: post
         /\ (forall p, In p pre -> markerHit canvas clickX clickY p = false)
         /\ markerHit canvas clickX clickY q = true).
Proof. intros Hall. apply (hitLoop_first_match _ _ _ _ Hall). Qed.

Lemma hitLoop_none_iff canvas clickX clickY earthquakes :
  (forall p, In p earthquakes -> Quake.coordinates p <> None) ->
  (hitLoop canvas clickX clickY earthquakes = Normal None
   <-> forall p, In p earthquakes -> markerHit canvas clickX clickY p = false).
Proof. intros Hall. apply (hitLoop_first_match _ _ _ _ Hall). Qed.

(** At the plane point of a listed marker the loop selects that marker or
    one listed before it. *)
Lemma hitLoop_at_marker canvas earthquakes q lng lat tl :
  (forall p, In p earthquakes -> Quake.coordinates p <> None) ->
  In q earthquakes ->
  Quake.coordinates q = Some (lng :: lat :: tl) ->
  exists q' pre post,
    hitLoop canvas (projectX (width canvas) lng) (projectY (height canvas) lat)
      earthquakes = Normal (Some q')
    /\ earthquakes = pre ++ q' :: post
    /\ (q' = q \/ In q post).
Proof.
  intros Hall Hin Hc.
  pose proof (markerHit_at_centre canvas q lng lat tl Hc) as Hq.
  set (x := projectX (width canvas) lng) in *.
  set (y := projectY (height canvas) lat) in *.
  destruct (hitLoop canvas x y earthquakes) as [[q' |] |] eqn:E.
  - apply (hitLoop_some_iff _ _ _ _ _ Hall) in E.
    destruct E as (pre & post & Heq & Hpre & Hm).
    exists q', pre, post. split; [reflexivity |]. split; [exact Heq |].
    rewrite Heq in Hin. apply in_app_or in Hin.
    destruct Hin as [Hin | [Hin | Hin]]; [| left; exact Hin | right; exact Hin].
    rewrite (Hpre q Hin) in Hq. discriminate.
  - pose proof (proj1 (hitLoop_none_iff canvas x y earthquakes Hall) E) as En.
    rewrite (En q Hin) in Hq. discriminate.
  - exfalso. exact (hitLoop_completes _ _ _ _ Hall E).
Qed.

(** X5. A click on the centre of a marker always selects a marker.  With
    zoom not 0, the drag flag clear and every marker's coordinates an array,
    a click at the screen position of a listed marker that has longitude
    and latitude calls the selection callback with a listed marker -- that
    one, or one listed before it that also covers the point. *)
Theorem click_on_marker_centre_selects
    (canvas : Canvas) (earthquakes : list Quake.t) (st : MapState)
    (q : Quake.t) (lng lat : R) (tl : list R) :
  zoom st <> 0 ->
  isDragging st = false ->
  (forall p, In p earthquakes -> Quake.coordinates p <> None) ->
  In q earthquakes ->
  Quake.coordinates q = Some (lng :: lat :: tl) ->
  let d := toDevice st (Pt.mk (projectX (width canvas) lng)
                              (projectY (height canvas) lat)) in
  exists q' pre post,
    handleClick (Some canvas) earthquakes st
      (rectLeft canvas + Pt.x d) (rectTop canvas + Pt.y d) = Normal (Some q')
    /\ earthquakes = pre ++ q' :: post
    /\ (q' = q \/ In q post).
Proof.
  intros Hz Hd Hall Hin Hc d. unfold handleClick. rewrite Hd.
  unfold d, toDevice. cbn [Pt.x Pt.y].
  set (x := projectX (width canvas) lng).
  set (y := projectY (height canvas) lat).
  replace ((rectLeft canvas + (x * zoom st + Pt.x (pan st)) - rectLeft canvas
            - Pt.x (pan st)) / zoom st) with x by (field; exact Hz).
  replace ((rectTop canvas + (y * zoom st + Pt.y (pan st)) - rectTop canvas
            - Pt.y (pan st)) / zoom st) with y by (field; exact Hz).
  apply (hitLoop_at_marker canvas earthquakes q lng lat tl); assumption.
Qed.

Lemma click_on_marker_centre_selects_witness :
  let canvas := mkCanvas 360 180 0 0 in
  let st := mkMapState 2 (Pt.mk (-180) (-90)) false (Pt.mk 0 0) in
  let far := Quake.mk "q0" 3 "Fiji" (Some [178; -18; 10]) in
  let near := Quake.mk "q1" 3 "Gulf of Guinea" (Some [0; 0; 10]) in
  let d := toDevice st (Pt.mk (projectX 360 0) (projectY 180 0)) in
  exists q' pre post,
    handleClick (Some canvas) [far; near] st (0 + Pt.x d) (0 + Pt.y d)
    = Normal (Some q')
    /\ [far; near] = pre ++ q' :: post
    /\ (q' = near \/ In near post).
Proof.
  intros canvas st far near.
  apply (click_on_marker_centre_selects canvas [far; near] st near 0 0 [10]).
  - simpl; lra.
  - reflexivity.
  - intros p [<- | [<- | []]]; discriminate.
  - right; left; reflexivity.
  - reflexivity.
Defined.

Lemma searchCoordinatesEffect_centre canvas sc st :
  toDevice (searchCoordinatesEffect (Some canvas) (Some sc) st)
    (project (width canvas) (height canvas) sc)
  = Pt.mk (width canvas / 2) (height canvas / 2).
Proof.
  unfold toDevice, project, projectX, projectY; simpl.
  apply Pt_eq; split; lra.
Qed.




(** ** Drag to pan, continued *)

Section Drag.

Variable canvasRef : option Canvas.
Variable earthquakes : list Quake.t.

Lemma dispatch_keeps_drag st ev :
  keepsDrag ev = true ->
  let st' := fst (dispatch canvasRef earthquakes st ev) in
  isDragging st' = isDragging st /\ dragStart st' = dragStart st.
Proof.
  destruct ev as [deltaY | c | cx cy | cx cy | | | cx cy]; intros Hk;
    try discriminate; simpl.
  - destruct canvasRef; auto.
  - unfold searchCoordinatesEffect. destruct c; [destruct canvasRef |]; auto.
  - unfold handleMouseMove. destruct (isDragging st) eqn:E; simpl; auto.
  - auto.
Qed.

Lemma run_keeps_drag st evs :
  forallb keepsDrag evs = true ->
  let st' := fst (run canvasRef earthquakes st evs) in
  isDragging st' = isDragging st /\ dragStart st' = dragStart st.
Proof.
  revert st; induction evs as [| ev evs IH]; intros st Hk.
  - simpl; auto.
  - cbn [forallb] in Hk. apply andb_prop in Hk. destruct Hk as [Hev Hevs].
    cbn zeta. rewrite run_cons.
    destruct (IH (fst (dispatch canvasRef earthquakes st ev)) Hevs) as [Hd Ha].
    destruct (dispatch_keeps_drag st ev Hev) as [Hd' Ha'].
    split; congruence.
Qed.

Lemma moves_keep_drag (moves : list Pt.t) :
  forallb keepsDrag (map (fun m => MouseMove (Pt.x m) (Pt.y m)) moves) = true.
Proof. induction moves as [| m moves IH]; [reflexivity | exact IH]. Qed.

Lemma moves_keep_zoom st (moves : list Pt.t) :
  zoom (fst (run canvasRef earthquakes st
               (map (fun m => MouseMove (Pt.x m) (Pt.y m)) moves)))
  = zoom st.
Proof.
  revert st; induction moves as [| m moves IH]; intros st; [reflexivity |].
  rewrite map_cons, run_cons, IH. simpl.
  unfold handleMouseMove. destruct (isDragging st); reflexivity.
Qed.

(** The pan after a press at [a], events that keep the gesture going, and a
    final move to [e]. *)
Lemma drag_pan st (a e : Pt.t) evs :
  forallb keepsDrag evs = true ->
  pan (fst (run canvasRef earthquakes st
              (MouseDown (Pt.x a) (Pt.y a) :: evs ++ [MouseMove (Pt.x e) (Pt.y e)])))
  = Pt.mk (Pt.x e - Pt.x a + Pt.x (pan st)) (Pt.y e - Pt.y a + Pt.y (pan st)).
Proof.
  intros Hk. rewrite run_cons, run_app.
  set (s0 := fst (dispatch canvasRef earthquakes st (MouseDown (Pt.x a) (Pt.y a)))).
  destruct (run_keeps_drag s0 evs Hk) as [Hd Ha].
  set (s1 := fst (run canvasRef earthquakes s0 evs)) in *.
  change (pan (handleMouseMove s1 (Pt.x e) (Pt.y e))
          = Pt.mk (Pt.x e - Pt.x a + Pt.x (pan st))
                  (Pt.y e - Pt.y a + Pt.y (pan st))).
  unfold handleMouseMove. rewrite Hd, Ha. simpl.
  apply Pt_eq; split; lra.
Qed.

End Drag.

(** X7. A drag overrides whatever happens to pan in between.  After a
    press at a with pan p0, any events that are not a press, a release or a
    leave -- wheel ticks, centring on search coordinates, clicks, moves --
    and a final pointer move to e, pan is e - a + p0: a centring that
    arrives in the middle of a drag is undone by the next pointer move. *)
Theorem drag_overrides_intervening_events
    (canvasRef : option Canvas) (earthquakes : list Quake.t)
    (st : MapState) (a e : Pt.t) (evs : list Event) :
  forallb keepsDrag evs = true ->
  pan (fst (run canvasRef earthquakes st
              (MouseDown (Pt.x a) (Pt.y a) :: evs ++ [MouseMove (Pt.x e) (Pt.y e)])))
  = Pt.mk (Pt.x e - Pt.x a + Pt.x (pan st)) (Pt.y e - Pt.y a + Pt.y (pan st)).
Proof. apply drag_pan. Qed.

Lemma drag_overrides_intervening_events_witness :
  pan (fst (run (Some (mkCanvas 800 600 0 0)) [] initialState
              (MouseDown 100 100
                 :: [Wheel (-1); SearchCoordinates (Some (mkLatLng 37.7749 (-122.4194)))]
                 ++ [MouseMove 130 90])))
  = Pt.mk (130 - 100 + 0) (90 - 100 + 0).
Proof.
  apply (drag_overrides_intervening_events (Some (mkCanvas 800 600 0 0)) []
           initialState (Pt.mk 100 100) (Pt.mk 130 90)
           [Wheel (-1); SearchCoordinates (Some (mkLatLng 37.7749 (-122.4194)))]).
  reflexivity.
Defined.

(** X8. The grabbed point follows the pointer.  After a press at a and
    pointer moves ending at e, the plane point under e is the plane point
    that was under a when the button went down, and the zoom is what it
    was. *)
Theorem drag_keeps_grabbed_point
    (canvasRef : option Canvas) (earthquakes : list Quake.t)
    (st : MapState) (a e : Pt.t) (moves : list Pt.t) :
  let st' := fst (run canvasRef earthquakes st
                    (MouseDown (Pt.x a) (Pt.y a)
                       :: map (fun m => MouseMove (Pt.x m) (Pt.y m)) moves
                       ++ [MouseMove (Pt.x e) (Pt.y e)])) in
  zoom st' = zoom st /\ toPlane st' e = toPlane st a.
Proof.
  intros st'.
  assert (Hp : pan st' = Pt.mk (Pt.x e - Pt.x a + Pt.x (pan st))
                               (Pt.y e - Pt.y a + Pt.y (pan st)))
    by (apply drag_pan, moves_keep_drag).
  assert (Hz : zoom st' = zoom st).
  { unfold st'.
    change (MouseDown (Pt.x a) (Pt.y a)
              :: map (fun m => MouseMove (Pt.x m) (Pt.y m)) moves
              ++ [MouseMove (Pt.x e) (Pt.y e)])
      with (MouseDown (Pt.x a) (Pt.y a)
              :: map (fun m => MouseMove (Pt.x m) (Pt.y m)) moves
              ++ map (fun m => MouseMove (Pt.x m) (Pt.y m)) [e]).
    rewrite <- map_app, run_cons, moves_keep_zoom. reflexivity. }
  split; [exact Hz |].
  unfold toPlane. rewrite Hp, Hz. cbn [Pt.x Pt.y].
  apply Pt_eq; split; f_equal; lra.
Qed.

(** X9. Pointer moves pan only while the button is held: after a release
    or after the pointer has left the canvas, and whenever the drag flag is
    clear, any number of pointer moves leaves the state as it is. *)
Theorem moves_without_button_do_nothing
    (canvasRef : option Canvas) (earthquakes : list Quake.t)
    (st : MapState) (moves : list Pt.t) :
  let moving := map (fun m => MouseMove (Pt.x m) (Pt.y m)) moves in
  fst (run canvasRef earthquakes st (MouseUp :: moving)) = handleMouseUp st
  /\ fst (run canvasRef earthquakes st (MouseLeave :: moving)) = handleMouseUp st
  /\ (isDragging st = false -> fst (run canvasRef earthquakes st moving) = st).
Proof.
  intros moving.
  assert (H : forall s, isDragging s = false ->
                        fst (run canvasRef earthquakes s moving) = s).
  { unfold moving. induction moves as [| m ms IH]; intros s Hs; [reflexivity |].
    rewrite map_cons, run_cons. simpl fst at 2.
    unfold handleMouseMove. rewrite Hs. apply IH. exact Hs. }
  repeat split.
  - rewrite run_cons. apply H. reflexivity.
  - rewrite run_cons. apply H. reflexivity.
  - apply H.
Qed.

(** ** Wheel zoom, continued *)

Lemma pow_09_bounds (n : nat) : 0 < 0.9 ^ n <= 1.
Proof.
  induction n as [| n IH]; simpl; [lra |]. nra.
Qed.

Lemma pow_11_bounds (n : nat) : 1 <= 1.1 ^ n.
Proof.
  induction n as [| n IH]; simpl; [lra |]. nra.
Qed.

Lemma handleWheel_out st deltaY :
  0.5 <= zoom st <= 5 -> deltaY > 0 ->
  zoom (handleWheel st deltaY) = Rmax 0.5 (zoom st * 0.9).
Proof.
  intros Hz Hd. rewrite handleWheel_zoom.
  destruct (Rgt_dec deltaY 0) as [_ | N]; [| contradiction].
  rewrite (Rmin_right 5 (zoom st * 0.9)) by lra. reflexivity.
Qed.

Lemma handleWheel_in st deltaY :
  0.5 <= zoom st <= 5 -> ~ deltaY > 0 ->
  zoom (handleWheel st deltaY) = Rmin 5 (zoom st * 1.1).
Proof.
  intros Hz Hd. rewrite handleWheel_zoom.
  destruct (Rgt_dec deltaY 0) as [P | _]; [contradiction |].
  apply Rmax_right.
  apply Rmin_glb; lra.
Qed.

(** X10. Direction and saturation of a wheel tick.  For zoom in
    [0.5, 5]: a tick with deltaY > 0 gives max(0.5, 0.9 * zoom), which is
    smaller than the zoom unless the zoom is already 0.5; any other tick
    gives min(5, 1.1 * zoom), which is larger unless the zoom is already
    5. *)
Theorem wheel_tick_direction (st : MapState) (deltaY : R) :
  0.5 <= zoom st <= 5 ->
  (deltaY > 0 ->
     zoom (handleWheel st deltaY) = Rmax 0.5 (zoom st * 0.9)
     /\ zoom (handleWheel st deltaY) <= zoom st
     /\ (zoom (handleWheel st deltaY) = zoom st <-> zoom st = 0.5))
  /\ (~ deltaY > 0 ->
     zoom (handleWheel st deltaY) = Rmin 5 (zoom st * 1.1)
     /\ zoom st <= zoom (handleWheel st deltaY)
     /\ (zoom (handleWheel st deltaY) = zoom st <-> zoom st = 5)).
Proof.
  intros Hz. split; intros Hd.
  - rewrite (handleWheel_out st deltaY Hz Hd).
    split; [reflexivity |].
    unfold Rmax. destruct (Rle_dec 0.5 (zoom st * 0.9)); split; try lra;
      split; intros; lra.
  - rewrite (handleWheel_in st deltaY Hz Hd).
    split; [reflexivity |].
    unfold Rmin. destruct (Rle_dec 5 (zoom st * 1.1)); split; try lra;
      split; intros; lra.
Qed.

Lemma wheel_tick_direction_witness :
  zoom (handleWheel initialState 100) <= zoom initialState
  /\ zoom initialState <= zoom (handleWheel initialState (-100)).
Proof.
  assert (H : 0.5 <= zoom initialState <= 5) by (simpl; lra).
  destruct (wheel_tick_direction initialState 100 H) as [Hout _].
  destruct (wheel_tick_direction initialState (-100) H) as [_ Hin].
  split.
  - apply Hout. lra.
  - apply Hin. lra.
Defined.

(** X11. Repeated ticks.  From a zoom z in [0.5, 5], n zoom-out ticks in a
    row give max(0.5, z * 0.9^n) and n zoom-in ticks give
    min(5, z * 1.1^n): clamping at every tick is the same as clamping
    once at the end. *)
Theorem wheel_ticks_closed_form
    (canvas : Canvas) (earthquakes : list Quake.t) (st : MapState)
    (deltaY : R) (n : nat) :
  0.5 <= zoom st <= 5 ->
  let st' := fst (run (Some canvas) earthquakes st (repeat (Wheel deltaY) n)) in
  (deltaY > 0 -> zoom st' = Rmax 0.5 (zoom st * 0.9 ^ n))
  /\ (~ deltaY > 0 -> zoom st' = Rmin 5 (zoom st * 1.1 ^ n)).
Proof.
  revert st; induction n as [| n IH]; intros st Hz st'.
  - unfold st'; simpl. rewrite !Rmult_1_r.
    split; intros _; [rewrite Rmax_right | rewrite Rmin_right]; lra.
  - unfold st'. cbn [repeat]. rewrite run_cons. cbn [dispatch fst].
    assert (Hz1 : 0.5 <= zoom (handleWheel st deltaY) <= 5) by apply clamp_bounds.
    destruct (IH (handleWheel st deltaY) Hz1) as [IHout IHin].
    split; intros Hd.
    + rewrite (IHout Hd), (handleWheel_out st deltaY Hz Hd).
      pose proof (pow_09_bounds n) as Hp. simpl pow.
      unfold Rmax.
      destruct (Rle_dec 0.5 (zoom st * 0.9));
        destruct (Rle_dec 0.5 (zoom st * 0.9 * 0.9 ^ n));
        destruct (Rle_dec 0.5 (zoom st * (0.9 * 0.9 ^ n)));
        destruct (Rle_dec 0.5 (0.5 * 0.9 ^ n)); try lra; try nra.
    + rewrite (IHin Hd), (handleWheel_in st deltaY Hz Hd).
      pose proof (pow_11_bounds n) as Hp. simpl pow.
      unfold Rmin.
      destruct (Rle_dec 5 (zoom st * 1.1));
        destruct (Rle_dec 5 (zoom st * 1.1 * 1.1 ^ n));
        destruct (Rle_dec 5 (zoom st * (1.1 * 1.1 ^ n)));
        destruct (Rle_dec 5 (5 * 1.1 ^ n)); try lra; try nra.
Qed.

Lemma wheel_ticks_closed_form_witness :
  zoom (fst (run (Some (mkCanvas 800 600 0 0)) [] initialState
               (repeat (Wheel 100) 3)))
  = Rmax 0.5 (zoom initialState * 0.9 ^ 3).
Proof.
  assert (H : 0.5 <= zoom initialState <= 5) by (simpl; lra).
  destruct (wheel_ticks_closed_form (mkCanvas 800 600 0 0) [] initialState 100 3 H)
    as [Hout _].
  apply Hout. lra.
Defined.

(** X12. Zooming in and back out does not return to the same zoom: when
    neither tick is clamped (1.1 * zoom <= 5 and 0.99 * zoom >= 0.5), a
    zoom-in tick followed by a zoom-out tick leaves 0.99 times the zoom,
    and so does a zoom-out tick followed by a zoom-in tick when
    0.9 * zoom >= 0.5. *)
Theorem wheel_in_then_out_drifts (st : MapState) (dIn dOut : R) :
  ~ dIn > 0 -> dOut > 0 ->
  0.5 <= zoom st <= 5 ->
  (zoom st * 1.1 <= 5 -> 0.5 <= zoom st * 0.99 ->
     zoom (handleWheel (handleWheel st dIn) dOut) = zoom st * 0.99)
  /\ (0.5 <= zoom st * 0.9 ->
     zoom (handleWheel (handleWheel st dOut) dIn) = zoom st * 0.99).
Proof.
  intros Hin Hout Hz. split.
  - intros Hhi Hlo.
    assert (H1 : zoom (handleWheel st dIn) = zoom st * 1.1).
    { rewrite (handleWheel_in st dIn Hz Hin). apply Rmin_right. exact Hhi. }
    rewrite handleWheel_out; [| rewrite H1; lra | exact Hout].
    rewrite H1, Rmax_right; lra.
  - intros Hlo.
    assert (H1 : zoom (handleWheel st dOut) = zoom st * 0.9).
    { rewrite (handleWheel_out st dOut Hz Hout). apply Rmax_right. exact Hlo. }
    rewrite handleWheel_in; [| rewrite H1; lra | exact Hin].
    rewrite H1, Rmin_right; lra.
Qed.

Lemma wheel_in_then_out_drifts_witness :
  zoom (handleWheel (handleWheel initialState (-100)) 100) = zoom initialState * 0.99.
Proof.
  assert (Hin : ~ -100 > 0) by lra.
  assert (Hout : 100 > 0) by lra.
  assert (Hz : 0.5 <= zoom initialState <= 5) by (simpl; lra).
  destruct (wheel_in_then_out_drifts initialState (-100) 100 Hin Hout Hz) as [H _].
  apply H; simpl; lra.
Defined.

(** ** The render pass *)

Lemma getMagnitudeSize_range (m : R) : 8 <= getMagnitudeSize m <= 24.
Proof. unfold getMagnitudeSize. magnitude_cases; lra. Qed.

(** X13. Markers keep their size on the screen.  With zoom not 0 and
    every marker's coordinates an array, the marker loop makes one arc
    call per marker, in list order, whose radius times the zoom -- the
    radius on the screen -- is getMagnitudeSize(mag), between 8 and 24
    pixels whatever the zoom, filled with getMagnitudeColor(mag), opaque
    for the markers that carry the selected id and at 0.7 for the others. *)
Theorem markers_keep_screen_size
    (canvas : Canvas) (st : MapState) (selectedEarthquake : option Quake.t)
    (earthquakes : list Quake.t) :
  zoom st <> 0 ->
  (forall q, In q earthquakes -> Quake.coordinates q <> None) ->
  Forall2
    (fun q c =>
       arcRadius c * zoom st = getMagnitudeSize (Quake.mag q)
       /\ 8 <= arcRadius c * zoom st <= 24
       /\ fillStyle c = getMagnitudeColor (Quake.mag q)
       /\ globalAlpha c = (if isSelected selectedEarthquake q then 1 else 0.7))
    earthquakes
    (fst (drawMarkers canvas st selectedEarthquake earthquakes)).
Proof.
  intros Hz. induction earthquakes as [| quake rest IH]; intros Hall.
  - constructor.
  - assert (Hrest : forall q, In q rest -> Quake.coordinates q <> None)
      by (intros q Hq; apply Hall; right; exact Hq).
    specialize (IH Hrest).
    destruct (Quake.coordinates quake) as [arr |] eqn:Hc;
      [| exfalso; apply (Hall quake); [left; reflexivity | exact Hc]].
    cbn [drawMarkers]. rewrite Hc.
    destruct (destructure arr) as [lng lat].
    destruct (drawMarkers canvas st selectedEarthquake rest) as [calls ending].
    cbn [fst] in *. constructor; [| exact IH].
    cbn [arcRadius fillStyle globalAlpha].
    assert (Hr : getMagnitudeSize (Quake.mag quake) / zoom st * zoom st
                 = getMagnitudeSize (Quake.mag quake)) by (field; exact Hz).
    rewrite Hr. pose proof (getMagnitudeSize_range (Quake.mag quake)).
    repeat split; lra.
Qed.

Lemma markers_keep_screen_size_witness :
  let canvas := mkCanvas 360 180 0 0 in
  let st := mkMapState 2 (Pt.mk (-180) (-90)) false (Pt.mk 0 0) in
  let short := Quake.mk "q0" 5 "unknown" (Some []) in
  let good := Quake.mk "q1" 3 "Gulf of Guinea" (Some [0; 0; 10]) in
  Forall2
    (fun q c =>
       arcRadius c * zoom st = getMagnitudeSize (Quake.mag q)
       /\ 8 <= arcRadius c * zoom st <= 24
       /\ fillStyle c = getMagnitudeColor (Quake.mag q)
       /\ globalAlpha c = (if isSelected (Some good) q then 1 else 0.7))
    [short; good]
    (fst (drawMarkers canvas st (Some good) [short; good])).
Proof.
  intros canvas st short good.
  apply (markers_keep_screen_size canvas st (Some good) [short; good]).
  - simpl; lra.
  - intros q [<- | [<- | []]]; discriminate.
Defined.

Lemma cons_eq {A : Type} (a b : A) (l l' : list A) :
  a = b -> l = l' -> a :: l = b :: l'.
Proof. intros -> ->; reflexivity. Qed.

Lemma Segment_eq (a b c d a' b' c' d' : R) :
  a = a' -> b = b' -> c = c' -> d = d' ->
  mkSegment a b c d = mkSegment a' b' c' d'.
Proof. intros -> -> -> ->; reflexivity. Qed.

(** X14. The grid is the graticule of the marker projection.  [drawGrid]
    strokes 13 vertical lines, at the plane x of the meridians -180, -150,
    ..., 180, from the top edge to the bottom edge, then 7 horizontal lines,
    at the plane y of the parallels 90, 60, ..., -90, from the left edge to
    the right edge; the loops end on their own test; and the line width
    times the zoom is 0.5 when the zoom is not 0. *)
Theorem grid_is_the_graticule (st : MapState) (w h : R) :
  snd (drawGrid st w h)
  = map (fun lng => mkSegment (projectX w lng) 0 (projectX w lng) h)
        [-180; -150; -120; -90; -60; -30; 0; 30; 60; 90; 120; 150; 180]
    ++ map (fun lat => mkSegment 0 (projectY h lat) w (projectY h lat))
           [90; 60; 30; 0; -30; -60; -90]
  /\ (forall fuel, (13 <= fuel)%nat ->
        forStep30 fuel 0 360 = forStep30 361 0 360)
  /\ (forall fuel, (7 <= fuel)%nat ->
        forStep30 fuel 0 180 = forStep30 181 0 180)
  /\ (zoom st <> 0 -> fst (drawGrid st w h) * zoom st = 0.5).
Proof.
  split; [| split; [| split]].
  - unfold drawGrid, projectX, projectY. cbn [snd].
    change (forStep30 361 0 360)
      with [0; 30; 60; 90; 120; 150; 180; 210; 240; 270; 300; 330; 360]%Z.
    change (forStep30 181 0 180) with [0; 30; 60; 90; 120; 150; 180]%Z.
    cbn [map app].
    repeat (apply cons_eq; [apply Segment_eq; lra |]). reflexivity.
  - intros fuel Hf.
    do 13 (destruct fuel as [| fuel]; [exfalso; inversion Hf; fail |];
           apply le_S_n in Hf).
    vm_compute forStep30 at 2.
    cbn [forStep30]. destruct fuel; reflexivity.
  - intros fuel Hf.
    do 7 (destruct fuel as [| fuel]; [exfalso; inversion Hf; fail |];
          apply le_S_n in Hf).
    vm_compute forStep30 at 2.
    cbn [forStep30]. destruct fuel; reflexivity.
  - intros Hz. unfold drawGrid. cbn [fst]. field. exact Hz.
Qed.

(** X15. The continents stay on the canvas: for a canvas of non-negative
    size, each of the six rectangles [drawContinents] fills has
    non-negative width and height and lies within [0, width] by
    [0, height]. *)
Theorem continents_inside_canvas (w h : R) :
  0 <= w -> 0 <= h ->
  List.length (drawContinents w h) = 6%nat
  /\ Forall (fun r => 0 <= rx r /\ 0 <= rw r /\ rx r + rw r <= w
                      /\ 0 <= ry r /\ 0 <= rh r /\ ry r + rh r <= h)
            (drawContinents w h).
Proof.
  intros Hw Hh. split; [reflexivity |].
  unfold drawContinents, continents. cbn [map rx ry rw rh].
  repeat (apply Forall_cons; [cbn [rx ry rw rh]; nra |]).
  apply Forall_nil.
Qed.

Lemma continents_inside_canvas_witness :
  Forall (fun r => 0 <= rx r /\ 0 <= rw r /\ rx r + rw r <= 800
                   /\ 0 <= ry r /\ 0 <= rh r /\ ry r + rh r <= 600)
         (drawContinents 800 600).
Proof.
  apply (continents_inside_canvas 800 600); lra.
Defined.

(** ** The Leaflet version of the map *)

(** X16. The floor of 2 pixels in the Leaflet markers never applies: the
    radius passed to [CircleMarker] is getMagnitudeSize(mag), between 8 and
    24. *)
Theorem pixelSize_is_getMagnitudeSize (quake : Quake.t) :
  pixelSize quake = getMagnitudeSize (Quake.mag quake)
  /\ 8 <= pixelSize quake <= 24.
Proof.
  pose proof (getMagnitudeSize_range (Quake.mag quake)) as H.
  unfold pixelSize. rewrite Rmax_right by lra. split; [reflexivity | exact H].
Qed.

(** ** The magnitude filter and the map *)

Lemma filteredEarthquakes_In earthquakes minMagnitude q :
  In q (filteredEarthquakes earthquakes minMagnitude)
  <-> In q earthquakes /\ Quake.mag q >= minMagnitude.
Proof.
  unfold filteredEarthquakes. rewrite filter_In.
  destruct (Rge_dec (Quake.mag q) minMagnitude); split; intros [H1 H2];
    split; try assumption; try reflexivity; try discriminate; contradiction.
Qed.

(** X17. The map never selects an event below the magnitude filter: when
    the map is given the filtered list, a click that calls the selection
    callback calls it with an event of the unfiltered list whose magnitude
    is at least minMagnitude. *)
Theorem click_respects_magnitude_filter
    (canvasRef : option Canvas) (earthquakes : list Quake.t) (minMagnitude : R)
    (st : MapState) (clientX clientY : R) (q : Quake.t) :
  handleClick canvasRef (filteredEarthquakes earthquakes minMagnitude) st
    clientX clientY = Normal (Some q) ->
  In q earthquakes /\ Quake.mag q >= minMagnitude.
Proof.
  unfold handleClick. destruct (isDragging st); [discriminate |].
  destruct canvasRef as [canvas |]; [| discriminate].
  intros H. apply hitLoop_selected_in in H.
  apply filteredEarthquakes_In. exact H.
Qed.

Lemma click_respects_magnitude_filter_witness :
  let good := Quake.mk "q1" 3 "Gulf of Guinea" (Some [0; 0; 10]) in
  let weak := Quake.mk "q2" 1 "Gulf of Guinea" (Some [0; 0; 5]) in
  In good [weak; good] /\ Quake.mag good >= 2.
Proof.
  intros good weak.
  apply (click_respects_magnitude_filter (Some (mkCanvas 360 180 0 0))
           [weak; good] 2 initialState 180 90 good).
  unfold filteredEarthquakes. cbn [filter Quake.mag weak good].
  destruct (Rge_dec 1 2) as [H | _]; [exfalso; lra |].
  destruct (Rge_dec 3 2) as [_ | H]; [| exfalso; lra].
  unfold handleClick. cbn [isDragging initialState].
  eapply hitLoop_hit; [reflexivity |].
  cbn [Quake.mag good]. rewrite getMagnitudeSize_3.
  unfold projectX, projectY; simpl. lra.
Defined.

(** X18. Narrowing the filter.  Filtering at a threshold and then at a
    higher one gives what filtering at the higher one gives, the events
    keep their order, and with threshold 0 no event of non-negative
    magnitude is dropped. *)
Theorem filter_narrows (earthquakes : list Quake.t) (m1 m2 : R) :
  m1 <= m2 ->
  filteredEarthquakes (filteredEarthquakes earthquakes m1) m2
  = filteredEarthquakes earthquakes m2
  /\ (exists keep, filteredEarthquakes earthquakes m2
                   = filter keep (filteredEarthquakes earthquakes m1))
  /\ ((forall q, In q earthquakes -> 0 <= Quake.mag q) ->
      filteredEarthquakes earthquakes 0 = earthquakes).
Proof.
  intros Hm.
  assert (H : filteredEarthquakes (filteredEarthquakes earthquakes m1) m2
              = filteredEarthquakes earthquakes m2).
  { unfold filteredEarthquakes.
    induction earthquakes as [| q rest IH]; [reflexivity |].
    cbn [filter].
    destruct (Rge_dec (Quake.mag q) m1) as [H1 | H1];
      destruct (Rge_dec (Quake.mag q) m2) as [H2 | H2]; cbn [filter];
      try (destruct (Rge_dec (Quake.mag q) m2) as [H3 | H3]; try contradiction);
      try rewrite IH; try reflexivity.
    exfalso; lra. }
  split; [exact H |]. split.
  - eexists. rewrite <- H. reflexivity.
  - clear H. intros Hpos. unfold filteredEarthquakes.
    induction earthquakes as [| q rest IH]; [reflexivity |].
    cbn [filter]. destruct (Rge_dec (Quake.mag q) 0) as [_ | N].
    + f_equal. apply IH. intros p Hp. apply Hpos. right. exact Hp.
    + exfalso. specialize (Hpos q (or_introl eq_refl)). lra.
Qed.

Lemma filter_narrows_witness :
  let good := Quake.mk "q1" 3 "Gulf of Guinea" (Some [0; 0; 10]) in
  let weak := Quake.mk "q2" 1 "Gulf of Guinea" (Some [0; 0; 5]) in
  filteredEarthquakes (filteredEarthquakes [weak; good] 0.5) 2
  = filteredEarthquakes [weak; good] 2.
Proof.
  intros good weak.
  apply (filter_narrows [weak; good] 0.5 2). lra.
Defined.

(** ** The search box *)

Lemma splitRuns_chars inRun cur s p c :
  In p (splitRuns inRun cur s) -> In c p ->
  (In c cur \/ In c s)
  /\ ((forall d, In d cur -> isWhiteSpace d = false) -> isWhiteSpace c = false).
Proof.
  revert inRun cur; induction s as [| a rest IH]; intros inRun cur Hp Hc.
  - cbn [splitRuns] in Hp. destruct Hp as [<- | []].
    apply in_rev in Hc. split; [left; exact Hc | intros H; apply H; exact Hc].
  - cbn [splitRuns] in Hp. destruct (isWhiteSpace a) eqn:Ea.
    + destruct inRun.
      * destruct (IH _ _ Hp Hc) as [[H | H] Hw];
          (split; [| exact Hw]); [left | right; right]; exact H.
      * destruct Hp as [<- | Hp].
        -- apply in_rev in Hc.
           split; [left; exact Hc | intros H; apply H; exact Hc].
        -- destruct (IH _ _ Hp Hc) as [[[] | H] Hw].
           split; [right; right; exact H |].
           intros _. apply Hw. intros d [].
    + destruct (IH _ _ Hp Hc) as [[[<- | H] | H] Hw].
      * split; [right; left; reflexivity | intros _; exact Ea].
      * split; [left; exact H |].
        intros Hcur. apply Hw. intros d [<- | Hd]; [exact Ea | apply Hcur; exact Hd].
      * split; [right; right; exact H |].
        intros Hcur. apply Hw. intros d [<- | Hd]; [exact Ea | apply Hcur; exact Hd].
Qed.

Lemma trimStart_In s c : In c (trimStart s) -> In c s.
Proof.
  induction s as [| a rest IH]; [intros [] |].
  cbn [trimStart]. destruct (isWhiteSpace a); [| exact (fun H => H)].
  intros H. right. apply IH. exact H.
Qed.

Lemma trim_In s c : In c (trim s) -> In c s.
Proof.
  unfold trim, trimEnd. intros H.
  apply in_rev, trimStart_In in H. apply in_rev in H.
  apply trimStart_In. exact H.
Qed.

Lemma replaceSeparators_In s c :
  In c (replaceSeparators s) ->
  isSeparator c = false /\ (In c s \/ c = 32%N).
Proof.
  unfold replaceSeparators. intros H. apply in_map_iff in H.
  destruct H as (a & Ha & Hin).
  destruct (isSeparator a) eqn:E; subst c.
  - split; [reflexivity | right; reflexivity].
  - split; [exact E | left; exact Hin].
Qed.

(** X19. What reaches [parseFloat].  Every part that [parseCoordinates]
    cuts out of the input is non-empty, is made of characters of the input,
    and holds no white space, no comma, no degree sign and no U+00C2: those
    characters only separate the parts. *)
Theorem search_parts_are_clean (input p : jsstring) :
  In p (filter nonEmpty (split (trim (replaceSeparators input)))) ->
  p <> []
  /\ forall c, In c p ->
       In c input /\ isWhiteSpace c = false /\ isSeparator c = false.
Proof.
  intros H. apply filter_In in H. destruct H as [Hp Hne].
  split; [intros ->; discriminate |].
  intros c Hc.
  destruct (splitRuns_chars _ _ _ _ _ Hp Hc) as [[[] | Hin] Hw].
  assert (Hws : isWhiteSpace c = false) by (apply Hw; intros d []).
  apply trim_In, replaceSeparators_In in Hin. destruct Hin as [Hsep [Hin | ->]].
  - auto.
  - discriminate.
Qed.

Lemma search_parts_are_clean_witness :
  (* "3, 4" *)
  [51%N] <> []
  /\ forall c, In c [51%N] ->
       In c [51; 44; 32; 52]%N /\ isWhiteSpace c = false /\ isSeparator c = false.
Proof.
  apply (search_parts_are_clean [51; 44; 32; 52]%N [51%N]).
  left; reflexivity.
Defined.

Lemma inRange_true lo v hi : inRange lo v hi = true -> lo <= v <= hi.
Proof.
  unfold inRange. destruct (Rge_dec v lo), (Rle_dec v hi); try discriminate.
  intros _; lra.
Qed.

Lemma parseCoordinates_Some parseFloat input c :
  parseCoordinates parseFloat input = Some c ->
  (-90 <= lat c <= 90 /\ -180 <= lng c <= 180)
  /\ exists p0 p1,
       filter nonEmpty (split (trim (replaceSeparators input))) = [p0; p1]
       /\ parseFloat p0 = Some (lat c)
       /\ parseFloat p1 = Some (lng c).
Proof.
  unfold parseCoordinates.
  destruct (filter nonEmpty (split (trim (replaceSeparators input))))
    as [| p0 [| p1 [| p2 tl]]]; try discriminate.
  destruct (parseFloat p0) as [la |] eqn:E0; [| discriminate].
  destruct (parseFloat p1) as [lo |] eqn:E1; [| discriminate].
  destruct (inRange (-90) la 90 && inRange (-180) lo 180) eqn:Er; [| discriminate].
  intros H; injection H as <-. cbn [lat lng].
  apply andb_prop in Er. destruct Er as [Ha Ho].
  apply inRange_true in Ha. apply inRange_true in Ho.
  split; [split; assumption |].
  exists p0, p1. auto.
Qed.

(** X20. Coordinates are accepted only in range and only as a pair.
    Whatever [parseFloat] does, when [parseCoordinates] returns coordinates
    the input has exactly two parts, the latitude is what [parseFloat]
    gives for the first and lies in [-90, 90], and the longitude is what it
    gives for the second and lies in [-180, 180]. *)
Theorem parseCoordinates_in_range
    (parseFloat : jsstring -> option R) (input : jsstring) (c : LatLng) :
  parseCoordinates parseFloat input = Some c ->
  -90 <= lat c <= 90
  /\ -180 <= lng c <= 180
  /\ exists p0 p1,
       filter nonEmpty (split (trim (replaceSeparators input))) = [p0; p1]
       /\ parseFloat p0 = Some (lat c)
       /\ parseFloat p1 = Some (lng c).
Proof.
  intros H. apply parseCoordinates_Some in H.
  destruct H as [[Ha Ho] He]. auto.
Qed.

Lemma parseCoordinates_in_range_witness :
  (* "3, 4" with a parseFloat that reads the digits 3 and 4 *)
  let parseFloat := fun s : jsstring =>
    match s with
    | [51%N] => Some 3
    | [52%N] => Some 4
    | _ => None
    end in
  -90 <= lat (mkLatLng 3 4) <= 90
  /\ -180 <= lng (mkLatLng 3 4) <= 180
  /\ exists p0 p1,
       filter nonEmpty (split (trim (replaceSeparators [51; 44; 32; 52]%N)))
       = [p0; p1]
       /\ parseFloat p0 = Some (lat (mkLatLng 3 4))
       /\ parseFloat p1 = Some (lng (mkLatLng 3 4)).
Proof.
  intros parseFloat.
  apply (parseCoordinates_in_range parseFloat [51; 44; 32; 52]%N (mkLatLng 3 4)).
  unfold parseCoordinates.
  change (filter nonEmpty (split (trim (replaceSeparators [51; 44; 32; 52]%N))))
    with [[51%N]; [52%N]].
  cbn [parseFloat]. unfold inRange.
  destruct (Rge_dec 3 (-90)); [| exfalso; lra].
  destruct (Rle_dec 3 90); [| exfalso; lra].
  destruct (Rge_dec 4 (-180)); [| exfalso; lra].
  destruct (Rle_dec 4 180); [| exfalso; lra].
  reflexivity.
Defined.

(** X21. What the search box passes on.  Submitting calls [onSearch(null)]
    exactly when the term is empty after trimming; it never sets the error
    message then; and when it calls [onSearch] with coordinates, they are in
    range, their projection lies on a canvas of non-negative size, and the
    map's centring effect puts that point at the centre of the canvas with
    zoom 2. *)
Theorem handleSearch_passes_valid_coordinates
    (parseFloat : jsstring -> option R) (searchTerm : jsstring) :
  (handleSearch parseFloat searchTerm = OnSearch None <-> trim searchTerm = [])
  /\ (forall c canvas st,
        handleSearch parseFloat searchTerm = OnSearch (Some c) ->
        0 <= width canvas -> 0 <= height canvas ->
        let p := project (width canvas) (height canvas) c in
        let st' := searchCoordinatesEffect (Some canvas) (Some c) st in
        (-90 <= lat c <= 90 /\ -180 <= lng c <= 180)
        /\ (0 <= Pt.x p <= width canvas /\ 0 <= Pt.y p <= height canvas)
        /\ toDevice st' p = Pt.mk (width canvas / 2) (height canvas / 2)
        /\ zoom st' = 2).
Proof.
  unfold handleSearch. split.
  - destruct (trim searchTerm) as [| a rest]; [split; reflexivity |].
    destruct (parseCoordinates parseFloat searchTerm); split; discriminate.
  - intros c canvas st H Hw Hh.
    destruct (trim searchTerm) as [| a rest]; [discriminate |].
    destruct (parseCoordinates parseFloat searchTerm) as [c' |] eqn:E;
      [| discriminate].
    injection H as ->.
    apply parseCoordinates_Some in E. destruct E as [[Ha Ho] _].
    split; [split; assumption |].
    split.
    + unfold project, projectX, projectY; cbn [Pt.x Pt.y]. nra.
    + split; [apply searchCoordinatesEffect_centre | reflexivity].
Qed.
